(** * koria-core: the transport core (VarInt codec, packet envelope,
      steganographic frames, packet selector, virtual streams and the
      multiplexer), embedded in Rocq.

    Conventions of the embedding:
    - a Go integer of width w is a [Z]; wrap-around of a signed [int32] is
      [to_int32]; a byte is a [Z] in [0, 256);
    - an [io.Reader] over a byte sequence is the list of the bytes still
      unread; a read returns the value together with the unread remainder;
    - a [float64] / [float32] is represented by its IEEE-754 bit pattern
      ([math.Float64bits] and [math.Float64frombits] are exact inverse bit
      reinterpretations, so the code's float arithmetic on these fields is
      only ever bit manipulation). *)

From Stdlib Require Import ZArith Lia Bool.
From stdpp Require Import base list gmap.

Open Scope Z_scope.

(* ------------------------------------------------------------------ *)
(** ** Go integer helpers *)

(** [int32(z)]: two's-complement truncation to 32 bits. *)
Definition to_int32 (z : Z) : Z :=
  let m := z mod 2 ^ 32 in if m <? 2 ^ 31 then m else m - 2 ^ 32.

(** [byte(z)] / [uint8(z)]. *)
Definition to_byte (z : Z) : Z := Z.land z 255.

(** [uint16(z)]. *)
Definition to_uint16 (z : Z) : Z := Z.land z 65535.

(** Errors the modelled functions return. *)
Inductive go_error :=
| ErrEOF                 (* io.EOF *)
| ErrUnexpectedEOF       (* io.ErrUnexpectedEOF *)
| ErrVarIntTooBig        (* "VarInt too big" *)
| ErrInvalidLength       (* "invalid packet length" *)
| ErrClosedPipe          (* io.ErrClosedPipe *)
| ErrFrameTooLarge       (* "frame data too large" *)
| ErrHeaderTooShort      (* "not enough data for frame header" / "payload too small" *)
| ErrDataExceeds         (* "frame data length exceeds ..." *)
| ErrWrite               (* an error of the physical connection *)
| ErrTimeout             (* "i/o timeout", "timeout waiting for SYN-ACK" *)
| ErrCanceled.           (* ctx.Err() *)

Inductive result (A : Type) :=
| Ok (a : A)
| Err (e : go_error).
Arguments Ok {A} a.
Arguments Err {A} e.

(* ------------------------------------------------------------------ *)
(** ** protocol/minecraft/varint.go *)

Module VarInt.

(** The loop of [WriteVarInt]:
<<
  for {
      if value&^0x7F == 0 { buf = append(buf, byte(value)); break }
      buf = append(buf, byte(value&0x7F|0x80))
      value >>= 7
  }
>>
    [value >>= 7] on an [int32] is an arithmetic shift, i.e. [Z.shiftr].
    The loop has no bound of its own; [fuel] counts the iterations it is
    allowed to run, and [None] means that it has not reached [break]. *)
Fixpoint write_loop (fuel : nat) (value : Z) : option (list Z) :=
  match fuel with
  | O => None
  | S fuel' =>
      if Z.ldiff value 127 =? 0 then Some [to_byte value]
      else
        match write_loop fuel' (Z.shiftr value 7) with
        | Some rest => Some (to_byte (Z.lor (Z.land value 127) 128) :: rest)
        | None => None
        end
  end.

(** [WriteVarInt] with a generous iteration budget ([MaxVarIntLength] is 5). *)
Definition WriteVarInt (value : Z) : option (list Z) := write_loop 64 value.

(** The loop of [ReadVarInt]:
<<
  n, err := r.Read(buf)              // EOF on an exhausted reader
  value |= int32(buf[0]&0x7F) << position
  if buf[0]&0x80 == 0 { break }
  position += 7
  if position >= 32 { return 0, fmt.Errorf("VarInt too big") }
>> *)
Fixpoint read_loop (r : list Z) (value position : Z) : result (Z * list Z) :=
  match r with
  | [] => Err ErrEOF
  | b :: r' =>
      let value' := Z.lor value (to_int32 (Z.shiftl (Z.land b 127) position)) in
      if Z.land b 128 =? 0 then Ok (value', r')
      else if position + 7 >=? 32 then Err ErrVarIntTooBig
      else read_loop r' value' (position + 7)
  end.

Definition ReadVarInt (r : list Z) : result (Z * list Z) := read_loop r 0 0.

End VarInt.

(* ------------------------------------------------------------------ *)
(** ** The packet envelope: [ReadPacketRaw] *)

Module Envelope.
Import VarInt.

(** [io.ReadFull(r, make([]byte, n))]. *)
Definition read_full (n : nat) (r : list Z) : option (list Z * list Z) :=
  if (length r <? n)%nat then None else Some (take n r, drop n r).

(** [ReadPacketRaw]: [VarInt length], a check of the length, exactly
    [length] bytes read with [io.ReadFull], the packet id read as a VarInt
    from those bytes and the remaining bytes returned. The result carries
    the packet id, the payload and the unread rest of the connection. *)
Definition ReadPacketRaw (r : list Z) : result (Z * list Z * list Z) :=
  match ReadVarInt r with
  | Err e => Err e
  | Ok (length, r1) =>
      if (length <=? 0) || (length >? 2097151) then Err ErrInvalidLength
      else
        match read_full (Z.to_nat length) r1 with
        | None => Err ErrUnexpectedEOF
        | Some (packetData, r2) =>
            match ReadVarInt packetData with
            | Err e => Err e
            | Ok (packetID, remainingData) => Ok (packetID, remainingData, r2)
            end
        end
  end.

End Envelope.

(* ------------------------------------------------------------------ *)
(** ** protocol/steganography: frames, encoder, decoder, selector *)

Module Stego.

(** [Frame] (frame.go). *)
Record Frame := mkFrame {
  StreamID : Z;   (* uint16 *)
  Sequence : Z;   (* uint16 *)
  Flags : Z;      (* uint8 *)
  Length : Z;     (* uint16 *)
  Data : list Z   (* []byte *)
}.

Definition FlagSYN : Z := 1.
Definition FlagACK : Z := 2.
Definition FlagFIN : Z := 4.
Definition FlagRST : Z := 8.
Definition FlagPSH : Z := 16.

Definition HeaderSize : Z := 7.

(** [f.HasFlag(flag)]: [f.Flags&flag != 0]. *)
Definition HasFlag (f : Frame) (flag : Z) : bool := negb (Z.land (Flags f) flag =? 0).

(** [MaxDataPerPlayerMove = 10] (encoder.go). *)
Definition MaxDataPerPlayerMove : Z := 10.

(** [binary.BigEndian.PutUint16] / [PutUint32]. *)
Definition put_u16 (v : Z) : list Z := [Z.land (Z.shiftr v 8) 255; Z.land v 255].
Definition put_u32 (v : Z) : list Z :=
  [Z.land (Z.shiftr v 24) 255; Z.land (Z.shiftr v 16) 255;
   Z.land (Z.shiftr v 8) 255; Z.land v 255].

(** [binary.BigEndian.Uint16] / [Uint32] on a slice. *)
Definition get_u16 (b : list Z) : Z :=
  Z.lor (nth 1 b 0) (Z.shiftl (nth 0 b 0) 8).
Definition get_u32 (b : list Z) : Z :=
  Z.lor (Z.lor (Z.lor (nth 3 b 0) (Z.shiftl (nth 2 b 0) 8))
               (Z.shiftl (nth 1 b 0) 16)) (Z.shiftl (nth 0 b 0) 24).

(** Go slicing [s[i:j]] within range. *)
Definition slice (s : list Z) (i j : nat) : list Z := take (j - i) (drop i s).

(** [padded := make([]byte, n); copy(padded, s)]. *)
Definition pad (n : nat) (s : list Z) : list Z := take n s ++ replicate (n - length s) 0.

(** The payload stream: the 7-byte header, then [Data]. Both encoders
    build it the same way. *)
Definition payload_stream (frame : Frame) : list Z :=
  put_u16 (StreamID frame) ++ put_u16 (Sequence frame) ++ [Flags frame] ++
  put_u16 (to_uint16 (Z.of_nat (length (Data frame)))) ++ Data frame.

(** [PlayerMovePacket]: coordinates as their IEEE-754 bit patterns. *)
Record PlayerMovePacket := mkPlayerMove {
  pm_X : Z; pm_Y : Z; pm_Z : Z;     (* float64 bits *)
  pm_Yaw : Z; pm_Pitch : Z;         (* float32 bits *)
  pm_Flags : Z                      (* uint8 *)
}.

(** [CustomPayloadPacket]; the channel is kept as its bytes. *)
Record CustomPayloadPacket := mkCustomPayload {
  cp_Channel : list Z;
  cp_Data : list Z
}.

(** ["minecraft:brand"] *)
Definition brand_channel : list Z :=
  [109; 105; 110; 101; 99; 114; 97; 102; 116; 58; 98; 114; 97; 110; 100].

(** [encodeDataInDouble]: clear the low 32 bits of the double, put the
    data there. *)
Definition encodeDataInDouble (baseBits : Z) (data : list Z) : Z :=
  let bits := Z.land baseBits 0xFFFFFFFF00000000 in
  let dataValue := if (4 <=? length data)%nat then get_u32 data else get_u32 (pad 4 data) in
  Z.lor bits dataValue.

(** [encodeDataInFloat]: the same with the low 16 bits of a float32. *)
Definition encodeDataInFloat (baseBits : Z) (data : list Z) : Z :=
  let bits := Z.land baseBits 0xFFFF0000 in
  let dataValue :=
    if (2 <=? length data)%nat then get_u16 data
    else if (length data =? 1)%nat then nth 0 data 0 else 0 in
  Z.lor bits dataValue.

(** The values the encoder draws from its random source: the bit patterns
    of the three base coordinates and the two base angles, and
    [rand.Intn(4)] for the packet flags. *)
Record Draw := mkDraw {
  base_X : Z; base_Y : Z; base_Z : Z; base_Yaw : Z; base_Pitch : Z;
  rand_flags : Z
}.

(** [Encoder.EncodeFrame]. *)
Definition EncodeFrame (rnd : Draw) (frame : Frame) : result PlayerMovePacket :=
  if Z.of_nat (length (Data frame)) >? MaxDataPerPlayerMove then Err ErrFrameTooLarge
  else
    let ed := payload_stream frame in
    let n := length ed in
    let x := if (4 <=? n)%nat then encodeDataInDouble (base_X rnd) (slice ed 0 4)
             else base_X rnd in
    let y := if (8 <=? n)%nat then encodeDataInDouble (base_Y rnd) (slice ed 4 8)
             else if (4 <? n)%nat then encodeDataInDouble (base_Y rnd) (pad 4 (drop 4 ed))
             else base_Y rnd in
    let z := if (12 <=? n)%nat then encodeDataInDouble (base_Z rnd) (slice ed 8 12)
             else if (8 <? n)%nat then encodeDataInDouble (base_Z rnd) (pad 4 (drop 8 ed))
             else base_Z rnd in
    let yaw := if (14 <=? n)%nat then encodeDataInFloat (base_Yaw rnd) (slice ed 12 14)
               else if (12 <? n)%nat then encodeDataInFloat (base_Yaw rnd) (pad 2 (drop 12 ed))
               else base_Yaw rnd in
    let pitch := if (16 <=? n)%nat then encodeDataInFloat (base_Pitch rnd) (slice ed 14 16)
                 else if (14 <? n)%nat then encodeDataInFloat (base_Pitch rnd) (pad 2 (drop 14 ed))
                 else base_Pitch rnd in
    let flags := if (17 <=? n)%nat then Z.land (nth 16 ed 0) 3 else rand_flags rnd in
    Ok (mkPlayerMove x y z yaw pitch flags).

(** [Encoder.EncodeFrameInCustomPayload]. *)
Definition EncodeFrameInCustomPayload (frame : Frame) : result CustomPayloadPacket :=
  Ok (mkCustomPayload brand_channel (payload_stream frame)).

(** [decodeDataFromDouble] / [decodeDataFromFloat]. *)
Definition decodeDataFromDouble (bits : Z) : Z := Z.land bits 0xFFFFFFFF.
Definition decodeDataFromFloat (bits : Z) : Z := Z.land bits 0xFFFF.

(** The header parse and data slice shared by both decoders. *)
Definition parse_frame (encodedData : list Z) : result Frame :=
  let sid := get_u16 (slice encodedData 0 2) in
  let seq := get_u16 (slice encodedData 2 4) in
  let flags := nth 4 encodedData 0 in
  let dataLen := get_u16 (slice encodedData 5 7) in
  if 0 <? dataLen then
    if HeaderSize + dataLen >? Z.of_nat (length encodedData) then Err ErrDataExceeds
    else Ok (mkFrame sid seq flags dataLen
               (slice encodedData 7 (Z.to_nat (HeaderSize + dataLen))))
  else Ok (mkFrame sid seq flags dataLen []).

(** [Decoder.DecodeFrame]: the 17 carrier bytes, then the parse. *)
Definition DecodeFrame (pkt : PlayerMovePacket) : result Frame :=
  let encodedData :=
    put_u32 (decodeDataFromDouble (pm_X pkt)) ++
    put_u32 (decodeDataFromDouble (pm_Y pkt)) ++
    put_u32 (decodeDataFromDouble (pm_Z pkt)) ++
    put_u16 (decodeDataFromFloat (pm_Yaw pkt)) ++
    put_u16 (decodeDataFromFloat (pm_Pitch pkt)) ++ [pm_Flags pkt] in
  if (length encodedData <? 7)%nat then Err ErrHeaderTooShort
  else parse_frame encodedData.

(** [Decoder.DecodeFrameFromCustomPayload]. *)
Definition DecodeFrameFromCustomPayload (pkt : CustomPayloadPacket) : result Frame :=
  if (length (cp_Data pkt) <? 7)%nat then Err ErrHeaderTooShort
  else parse_frame (cp_Data pkt).

(** Packet ids ([PacketType], an int32). *)
Definition PacketTypePlayerMove : Z := 0x1A.
Definition PacketTypeCustomPayload : Z := 0x12.
Definition PacketTypeChatMessage : Z := 0x07.
Definition PacketTypePlayerAction : Z := 0x24.
Definition PacketTypeHandSwing : Z := 0x36.

(** [PacketSelector.SelectPacketType], the two-tier selector (the variant
    whose packet kinds the multiplexer's read loop decodes). *)
Definition SelectPacketType (dataSize : Z) : Z :=
  if dataSize >? MaxDataPerPlayerMove then PacketTypeCustomPayload
  else PacketTypePlayerMove.

(** The five-tier [SelectPacketType] also present in selector.go. *)
Definition SelectPacketType_tiered (dataSize : Z) : Z :=
  if dataSize >? 512 then PacketTypeCustomPayload
  else if dataSize >? 100 then PacketTypeChatMessage
  else if dataSize >? 10 then PacketTypePlayerMove
  else if dataSize >? 4 then PacketTypePlayerAction
  else PacketTypeHandSwing.

(** [PacketSelector.GetMaxPayload] (two-tier selector). *)
Definition GetMaxPayload (packetType : Z) : Z :=
  if packetType =? PacketTypeCustomPayload then 32760 else MaxDataPerPlayerMove.

(** A disguise packet as the send path hands it to [WritePacket]. *)
Inductive Packet :=
| PMove (p : PlayerMovePacket)
| PCustom (p : CustomPayloadPacket).

(** The encoding half of [Multiplexer.sendFrame]: select on [len(frame.Data)]
    and encode. *)
Definition encode_for_send (rnd : Draw) (frame : Frame) : result Packet :=
  let packetType := SelectPacketType (Z.of_nat (length (Data frame))) in
  if packetType =? PacketTypeCustomPayload then
    match EncodeFrameInCustomPayload frame with
    | Ok p => Ok (PCustom p) | Err e => Err e end
  else
    match EncodeFrame rnd frame with
    | Ok p => Ok (PMove p) | Err e => Err e end.

(** The decoding half of [Multiplexer.readLoop]: by packet kind. *)
Definition decode_received (pkt : Packet) : result Frame :=
  match pkt with
  | PMove p => DecodeFrame p
  | PCustom p => DecodeFrameFromCustomPayload p
  end.

End Stego.

(* ------------------------------------------------------------------ *)
(** ** protocol/multiplexer: streams and the multiplexer *)

Module Mux.
Import Stego.

Inductive StreamState :=
| StreamStateIdle | StreamStateSYN | StreamStateOpen
| StreamStateClosing | StreamStateClosed.

Definition StreamState_eqb (a b : StreamState) : bool :=
  match a, b with
  | StreamStateIdle, StreamStateIdle | StreamStateSYN, StreamStateSYN
  | StreamStateOpen, StreamStateOpen | StreamStateClosing, StreamStateClosing
  | StreamStateClosed, StreamStateClosed => true
  | _, _ => false
  end.

(** A [Stream] object. Its channels are modelled by their contents:
    [readBuf] (capacity 256) by the queued chunks, oldest first;
    [synAckCh] (capacity 1) by whether it holds a token; [closeCh] by
    whether it has been closed. [st_closeOnce] records that the
    [closeOnce.Do] body has run; [st_readDeadline] that a non-zero read
    deadline is set. *)
Record Stream := mkStream {
  st_id : Z;
  st_sequence : Z;
  st_readBuf : list (list Z);
  st_synAck : bool;
  st_closed : bool;
  st_closeOnce : bool;
  st_readDeadline : bool;
  st_state : StreamState
}.

Definition readBufCap : nat := 256.

(** [newStream]. *)
Definition newStream (id : Z) : Stream :=
  mkStream id 0 [] false false false false StreamStateIdle.

Definition set_state (s : Stream) (st : StreamState) : Stream :=
  mkStream (st_id s) (st_sequence s) (st_readBuf s) (st_synAck s) (st_closed s)
    (st_closeOnce s) (st_readDeadline s) st.
Definition set_readBuf (s : Stream) (q : list (list Z)) : Stream :=
  mkStream (st_id s) (st_sequence s) q (st_synAck s) (st_closed s)
    (st_closeOnce s) (st_readDeadline s) (st_state s).
Definition set_sequence (s : Stream) (n : Z) : Stream :=
  mkStream (st_id s) n (st_readBuf s) (st_synAck s) (st_closed s)
    (st_closeOnce s) (st_readDeadline s) (st_state s).
Definition set_synAck (s : Stream) (b : bool) : Stream :=
  mkStream (st_id s) (st_sequence s) (st_readBuf s) b (st_closed s)
    (st_closeOnce s) (st_readDeadline s) (st_state s).
Definition mark_closeOnce (s : Stream) : Stream :=
  mkStream (st_id s) (st_sequence s) (st_readBuf s) (st_synAck s) (st_closed s)
    true (st_readDeadline s) (st_state s).
Definition mark_closed (s : Stream) : Stream :=
  mkStream (st_id s) (st_sequence s) (st_readBuf s) (st_synAck s) true
    (st_closeOnce s) (st_readDeadline s) (st_state s).

(** The world a [Multiplexer] lives in: the [Stream] objects by address
    (a [*Stream] is shared between the stream table and its users), the
    stream table [m.streams] (id to address), [m.nextStreamID], [m.closed],
    whether writes to the physical connection fail, the encoder's random
    source and the disguise packets written to the connection so far. *)
Record World := mkWorld {
  heap : gmap nat Stream;
  next_addr : nat;
  streams : gmap Z nat;
  nextStreamID : Z;
  mclosed : bool;
  conn_fails : bool;
  rng : nat -> Draw;
  draws : nat;
  wire : list Packet
}.

Definition set_heap (w : World) (h : gmap nat Stream) : World :=
  mkWorld h (next_addr w) (streams w) (nextStreamID w) (mclosed w) (conn_fails w)
    (rng w) (draws w) (wire w).
Definition set_streams (w : World) (t : gmap Z nat) : World :=
  mkWorld (heap w) (next_addr w) t (nextStreamID w) (mclosed w) (conn_fails w)
    (rng w) (draws w) (wire w).

(** [NewMultiplexer(conn)]: [nextStreamID] is left at Go's zero value. *)
Definition NewMultiplexer (r : nat -> Draw) : World :=
  mkWorld ∅ 0%nat ∅ 0 false false r 0%nat [].

(** [Multiplexer.sendFrame]: refuse on a closed multiplexer, encode the
    frame into the packet chosen by the selector, then write it under
    [writeMu]. *)
Definition sendFrame (w : World) (frame : Frame) : result unit * World :=
  if mclosed w then (Err ErrClosedPipe, w)
  else
    match encode_for_send (rng w (draws w)) frame with
    | Err e => (Err e, w)
    | Ok pkt =>
        let d := match pkt with PMove _ => S (draws w) | PCustom _ => draws w end in
        if conn_fails w then
          (Err ErrWrite, mkWorld (heap w) (next_addr w) (streams w) (nextStreamID w)
                           (mclosed w) (conn_fails w) (rng w) d (wire w))
        else
          (Ok tt, mkWorld (heap w) (next_addr w) (streams w) (nextStreamID w)
                    (mclosed w) (conn_fails w) (rng w) d (wire w ++ [pkt]))
    end.

(** [Multiplexer.closeStream]: forget the id (statistics left out). *)
Definition closeStream (w : World) (id : Z) : World :=
  set_streams w (delete id (streams w)).

Definition update_stream (w : World) (a : nat) (f : Stream -> Stream) : World :=
  match heap w !! a with
  | Some s => set_heap w (<[a := f s]> (heap w))
  | None => w
  end.

(** [Stream.Close]: the [closeOnce.Do] body, then [return nil]. The result
    of sending the FIN frame is dropped. *)
Definition Close (w : World) (a : nat) : option go_error * World :=
  match heap w !! a with
  | None => (None, w)
  | Some s =>
      if st_closeOnce s then (None, w)
      else
        let w1 := update_stream w a (fun s => set_state (mark_closeOnce s) StreamStateClosing) in
        let finFrame := mkFrame (st_id s) (st_sequence s) FlagFIN 0 [] in
        let w2 := snd (sendFrame w1 finFrame) in
        let w3 := update_stream w2 a (fun s => set_state (mark_closed s) StreamStateClosed) in
        (None, closeStream w3 (st_id s))
  end.

(** The loop of [Stream.Write]: cut [p] into chunks of the selector's
    maximum payload for the remaining size, one frame per chunk with the
    stream's sequence number, stop at the first send error. [fuel] bounds
    the iterations; every chunk has at least one byte. *)
Fixpoint write_loop (fuel : nat) (w : World) (a : nat) (p : list Z) (written : nat)
  : (nat * option go_error) * World :=
  match fuel with
  | O => ((written, None), w)
  | S fuel' =>
      if (written <? length p)%nat then
        match heap w !! a with
        | None => ((written, None), w)
        | Some s =>
            let remaining := (length p - written)%nat in
            let chunkSize := Z.to_nat (GetMaxPayload (SelectPacketType (Z.of_nat remaining))) in
            let chunkSize := if (remaining <? chunkSize)%nat then remaining else chunkSize in
            let chunk := slice p written (written + chunkSize) in
            let frame := mkFrame (st_id s) (st_sequence s) 0
                           (to_uint16 (Z.of_nat (length chunk))) chunk in
            let w1 := update_stream w a (fun s => set_sequence s (to_uint16 (st_sequence s + 1))) in
            match sendFrame w1 frame with
            | (Err e, w2) => ((written, Some e), w2)
            | (Ok _, w2) => write_loop fuel' w2 a p (written + chunkSize)
            end
        end
      else ((written, None), w)
  end.

(** [Stream.Write]. *)
Definition Write (w : World) (a : nat) (p : list Z) : (nat * option go_error) * World :=
  match heap w !! a with
  | None => ((0%nat, None), w)
  | Some s =>
      if StreamState_eqb (st_state s) StreamStateClosed
         || StreamState_eqb (st_state s) StreamStateClosing
      then ((0%nat, Some ErrClosedPipe), w)
      else write_loop (length p) w a p 0
  end.

(** [Stream.Read] with a buffer of [n] bytes. Its [select] has three
    cases and Go picks any ready one, so [Read] is a relation: a queued
    chunk (the part that does not fit is sent back into [readBuf], at its
    end, if there is room), the closed [closeCh] (EOF), or an elapsed read
    deadline (timeout, possible only when a deadline is set). The result
    is the count, the error and the bytes copied into the buffer. *)
Inductive Read (w : World) (a : nat) (n : nat)
  : (nat * option go_error * list Z) -> World -> Prop :=
| Read_data s data q :
    heap w !! a = Some s -> st_readBuf s = data :: q ->
    let k := Nat.min n (length data) in
    let q' := if (k <? length data)%nat then
                if (length q <? readBufCap)%nat then q ++ [drop k data] else q
              else q in
    Read w a n (k, None, take k data) (update_stream w a (fun s => set_readBuf s q'))
| Read_closed s :
    heap w !! a = Some s -> st_closed s = true ->
    Read w a n (0%nat, Some ErrEOF, []) w
| Read_deadline s :
    heap w !! a = Some s -> st_readDeadline s = true ->
    Read w a n (0%nat, Some ErrTimeout, []) w.

(** [Stream.handleFrame]. The data case is a [select] between enqueueing,
    the closed [closeCh] and a 5-second timer (which can only win while
    the queue stays full), so this too is a relation. *)
Inductive HandleFrame (w : World) (a : nat) (frame : Frame) : World -> Prop :=
| HF_synack :
    HasFlag frame FlagACK && HasFlag frame FlagSYN = true ->
    HandleFrame w a frame
      (update_stream w a (fun s => set_synAck (set_state s StreamStateOpen) true))
| HF_fin :
    HasFlag frame FlagACK && HasFlag frame FlagSYN = false ->
    HasFlag frame FlagFIN = true ->
    HandleFrame w a frame (snd (Close w a))
| HF_rst :
    HasFlag frame FlagACK && HasFlag frame FlagSYN = false ->
    HasFlag frame FlagFIN = false ->
    HasFlag frame FlagRST = true ->
    HandleFrame w a frame (snd (Close w a))
| HF_data_enqueue s :
    HasFlag frame FlagACK && HasFlag frame FlagSYN = false ->
    HasFlag frame FlagFIN = false -> HasFlag frame FlagRST = false ->
    0 < Length frame -> (0 < length (Data frame))%nat ->
    heap w !! a = Some s -> (length (st_readBuf s) < readBufCap)%nat ->
    HandleFrame w a frame
      (update_stream w a (fun s => set_readBuf s (st_readBuf s ++ [Data frame])))
| HF_data_closed s :
    HasFlag frame FlagACK && HasFlag frame FlagSYN = false ->
    HasFlag frame FlagFIN = false -> HasFlag frame FlagRST = false ->
    0 < Length frame -> (0 < length (Data frame))%nat ->
    heap w !! a = Some s -> st_closed s = true ->
    HandleFrame w a frame w
| HF_data_timeout s :
    HasFlag frame FlagACK && HasFlag frame FlagSYN = false ->
    HasFlag frame FlagFIN = false -> HasFlag frame FlagRST = false ->
    0 < Length frame -> (0 < length (Data frame))%nat ->
    heap w !! a = Some s -> (readBufCap <= length (st_readBuf s))%nat ->
    HandleFrame w a frame w
| HF_other :
    HasFlag frame FlagACK && HasFlag frame FlagSYN = false ->
    HasFlag frame FlagFIN = false -> HasFlag frame FlagRST = false ->
    (Length frame <= 0 \/ length (Data frame) = 0%nat) ->
    HandleFrame w a frame w.

(** How the wait at the end of [OpenStream] ends. *)
Inductive WaitOutcome := SynAckArrived | CtxDone | TimedOut.

(** [Multiplexer.OpenStream]: take [nextStreamID] and advance it (skipping 0
    when it wraps), register a new stream in state SYN, send SYN, wait.
    On [SynAckArrived] the read loop has delivered the SYN-ACK frame, which
    sets the stream Open and puts a token in [synAckCh]; [OpenStream]
    takes the token. *)
Definition OpenStream (w : World) (outcome : WaitOutcome) : result nat * World :=
  if mclosed w then (Err ErrClosedPipe, w)
  else
    let streamID := nextStreamID w in
    let nx := to_uint16 (streamID + 1) in
    let nx := if nx =? 0 then 1 else nx in
    let a := next_addr w in
    let s := set_state (newStream streamID) StreamStateSYN in
    let w1 := mkWorld (<[a := s]> (heap w)) (S a) (<[streamID := a]> (streams w)) nx
                (mclosed w) (conn_fails w) (rng w) (draws w) (wire w) in
    match sendFrame w1 (mkFrame streamID 0 FlagSYN 0 []) with
    | (Err e, w2) => (Err e, closeStream w2 streamID)
    | (Ok _, w2) =>
        match outcome with
        | SynAckArrived =>
            (Ok a, update_stream w2 a (fun s => set_synAck (set_state s StreamStateOpen) false))
        | CtxDone => (Err ErrCanceled, closeStream w2 streamID)
        | TimedOut => (Err ErrTimeout, closeStream w2 streamID)
        end
  end.

End Mux.

(* ------------------------------------------------------------------ *)
(** ** The send path under concurrency: [writeMu]

    Several goroutines call [Multiplexer.sendFrame] at once. Each encodes
    its frame without the lock, takes [m.writeMu], and [WritePacket] does
    two writes on the connection (the VarInt length, then id and body);
    [defer m.writeMu.Unlock()] releases the lock after the last write or
    after a failing one. A failing write may have written any prefix of
    its bytes. Goroutines interleave at every step. *)

Module SendLock.
Import Stego.

Definition opt_bytes (o : option (list Z)) : list Z :=
  match o with Some l => l | None => [] end.

Definition put_u64 (v : Z) : list Z := put_u32 (Z.shiftr v 32) ++ put_u32 v.

(** [PacketID()] and [Encode] of the two disguise packets. *)
Definition packet_id (p : Packet) : Z :=
  match p with PMove _ => PacketTypePlayerMove | PCustom _ => PacketTypeCustomPayload end.

Definition packet_body (p : Packet) : list Z :=
  match p with
  | PMove m =>
      put_u64 (pm_X m) ++ put_u64 (pm_Y m) ++ put_u64 (pm_Z m) ++
      put_u32 (pm_Yaw m) ++ put_u32 (pm_Pitch m) ++ [pm_Flags m]
  | PCustom c =>
      opt_bytes (VarInt.WriteVarInt (Z.of_nat (length (cp_Channel c)))) ++
      cp_Channel c ++ cp_Data c
  end.

(** The two writes of [WritePacket]. *)
Definition packetData (p : Packet) : list Z :=
  opt_bytes (VarInt.WriteVarInt (packet_id p)) ++ packet_body p.
Definition write_chunk (p : Packet) (k : nat) : list Z :=
  match k with
  | O => opt_bytes (VarInt.WriteVarInt (Z.of_nat (length (packetData p))))
  | _ => packetData p
  end.

(** All bytes [WritePacket] puts on the wire when both writes succeed. *)
Definition packet_wire (p : Packet) : list Z := write_chunk p 0 ++ write_chunk p 1.

(** A goroutine inside [sendFrame]: about to encode, waiting for the
    lock with its packet, holding the lock after [k] successful writes
    (the bytes it has written so far in [acc]), or returned. *)
Inductive Thread :=
| TStart (rnd : Draw) (frame : Frame)
| TWait (pkt : Packet)
| THeld (pkt : Packet) (k : nat) (acc : list Z)
| TDone.

(** The lock holder, the goroutines, the bytes on the connection, and the
    packets whose write has ended with the bytes each put on the wire. *)
Record Config := mkConfig {
  lock : option nat;
  threads : list Thread;
  conn_bytes : list Z;
  written : list (Packet * list Z)
}.

Inductive step : Config -> Config -> Prop :=
| step_encode_ok c i rnd fr pkt :
    threads c !! i = Some (TStart rnd fr) ->
    encode_for_send rnd fr = Ok pkt ->
    step c (mkConfig (lock c) (<[i := TWait pkt]> (threads c)) (conn_bytes c) (written c))
| step_encode_err c i rnd fr e :
    threads c !! i = Some (TStart rnd fr) ->
    encode_for_send rnd fr = Err e ->
    step c (mkConfig (lock c) (<[i := TDone]> (threads c)) (conn_bytes c) (written c))
| step_lock c i pkt :
    lock c = None ->
    threads c !! i = Some (TWait pkt) ->
    step c (mkConfig (Some i) (<[i := THeld pkt 0 []]> (threads c)) (conn_bytes c) (written c))
| step_write c i pkt k acc :
    lock c = Some i ->
    threads c !! i = Some (THeld pkt k acc) -> (k < 2)%nat ->
    step c (mkConfig (lock c) (<[i := THeld pkt (S k) (acc ++ write_chunk pkt k)]> (threads c))
              (conn_bytes c ++ write_chunk pkt k) (written c))
| step_write_fail c i pkt k acc m :
    lock c = Some i ->
    threads c !! i = Some (THeld pkt k acc) -> (k < 2)%nat ->
    let part := take m (write_chunk pkt k) in
    step c (mkConfig None (<[i := TDone]> (threads c))
              (conn_bytes c ++ part) (written c ++ [(pkt, acc ++ part)]))
| step_unlock c i pkt acc :
    lock c = Some i ->
    threads c !! i = Some (THeld pkt 2 acc) ->
    step c (mkConfig None (<[i := TDone]> (threads c)) (conn_bytes c) (written c ++ [(pkt, acc)])).

(** Start: every goroutine is about to send its frame, the lock is free,
    nothing has been written. *)
Definition init (jobs : list (Draw * Frame)) : Config :=
  mkConfig None (map (fun j => TStart (fst j) (snd j)) jobs) [] [].

Definition reachable (jobs : list (Draw * Frame)) (c : Config) : Prop :=
  rtc step (init jobs) c.

End SendLock.

(* ------------------------------------------------------------------ *)
(** ** Well-formed frames and the decoder's carrier bytes *)

Module StegoSpec.
Import Stego.

Definition is_byte (b : Z) : Prop := 0 <= b < 256.

(** What a [Frame] can hold (its Go field types) and the data-model
    invariant [Length == len(Data)], which every frame the code builds
    satisfies. *)
Definition frame_ok (fr : Frame) : Prop :=
  0 <= StreamID fr < 65536 /\ 0 <= Sequence fr < 65536 /\ is_byte (Flags fr) /\
  Forall is_byte (Data fr) /\ Z.of_nat (length (Data fr)) < 65536 /\
  Length fr = Z.of_nat (length (Data fr)).

(** [Decoder.DecodeFrame] parses the 17 bytes it reads out of the packet. *)
Definition carrier (p : PlayerMovePacket) : list Z :=
  put_u32 (decodeDataFromDouble (pm_X p)) ++ put_u32 (decodeDataFromDouble (pm_Y p)) ++
  put_u32 (decodeDataFromDouble (pm_Z p)) ++ put_u16 (decodeDataFromFloat (pm_Yaw p)) ++
  put_u16 (decodeDataFromFloat (pm_Pitch p)) ++ [pm_Flags p].

End StegoSpec.

(* ------------------------------------------------------------------ *)
(** ** The send path's invariant *)

Module SendLockSpec.
Import Stego SendLock.

(** The bytes a goroutine holding the lock has written after [k]
    successful writes. *)
Definition sent (p : Packet) (k : nat) : list Z :=
  match k with O => [] | S O => write_chunk p 0 | S (S _) => packet_wire p end.

(** The invariant of the send path: a goroutine past [Lock] is the lock
    holder, has written the first [k] chunks of its packet, and the
    connection holds the finished writes followed by those bytes; with the
    lock free the connection holds the finished writes; every finished
    write put a prefix of its packet's bytes on the wire. *)
Definition inv (c : Config) : Prop :=
  (forall i pkt k acc, threads c !! i = Some (THeld pkt k acc) ->
     lock c = Some i /\ (k <= 2)%nat /\ acc = sent pkt k /\
     conn_bytes c = concat (map snd (written c)) ++ acc) /\
  (forall i, lock c = Some i -> exists pkt k acc, threads c !! i = Some (THeld pkt k acc)) /\
  (lock c = None -> conn_bytes c = concat (map snd (written c))) /\
  Forall (fun e => snd e `prefix_of` packet_wire (fst e)) (written c).

End SendLockSpec.

(* ------------------------------------------------------------------ *)
(** ** Small multiplexer worlds used as concrete inputs *)

Module MuxScenarios.
Import Stego Mux.

Definition no_draws : nat -> Draw := fun _ => mkDraw 0 0 0 0 0 0.

(** An Open stream with id 1 and the given inbound queue. *)
Definition open_stream (q : list (list Z)) : Stream :=
  mkStream 1 0 q false false false false StreamStateOpen.

(** A multiplexer whose only stream is [s], at address 0. *)
Definition world_of (s : Stream) : World :=
  mkWorld {[0%nat := s]} 1 {[st_id s := 0%nat]} 2 false false no_draws 0 [].

(** The stream [Stream.Close] leaves behind when its [closeOnce] body runs. *)
Definition closed_stream (s : Stream) : Stream :=
  set_state (mark_closed (set_state (mark_closeOnce s) StreamStateClosing)) StreamStateClosed.

End MuxScenarios.

(* ------------------------------------------------------------------ *)
(** ** protocol/minecraft/varint.go: sizes and VarLong *)

Module VarIntExt.
Import VarInt.

(** [int64(z)]: two's-complement truncation to 64 bits. *)
Definition to_int64 (z : Z) : Z :=
  let m := z mod 2 ^ 64 in if m <? 2 ^ 63 then m else m - 2 ^ 64.

(** The loop of [VarIntSize] and of [VarLongSize] (their bodies are the
    same; on [int32] and on [int64] [value >>= 7] is an arithmetic shift):
<<
  size := 0
  for {
      if value&^0x7F == 0 { size++; break }
      size++
      value >>= 7
  }
>>
    As for [write_loop], [fuel] bounds the iterations and [None] means that
    the loop has not reached [break]. *)
Fixpoint size_loop (fuel : nat) (value size : Z) : option Z :=
  match fuel with
  | O => None
  | S fuel' =>
      if Z.ldiff value 127 =? 0 then Some (size + 1)
      else size_loop fuel' (Z.shiftr value 7) (size + 1)
  end.

Definition VarIntSize (value : Z) : option Z := size_loop 64 value 0.
Definition VarLongSize (value : Z) : option Z := size_loop 64 value 0.

(** [WriteVarLong]: its loop is the loop of [WriteVarInt] on an [int64]. *)
Definition WriteVarLong (value : Z) : option (list Z) := write_loop 64 value.

(** The loop of [ReadVarLong]: the loop of [ReadVarInt] with [int64] and
    the bound [position >= 64] ("VarLong too big"). *)
Fixpoint read_loop64 (r : list Z) (value position : Z) : result (Z * list Z) :=
  match r with
  | [] => Err ErrEOF
  | b :: r' =>
      let value' := Z.lor value (to_int64 (Z.shiftl (Z.land b 127) position)) in
      if Z.land b 128 =? 0 then Ok (value', r')
      else if position + 7 >=? 64 then Err ErrVarIntTooBig
      else read_loop64 r' value' (position + 7)
  end.

Definition ReadVarLong (r : list Z) : result (Z * list Z) := read_loop64 r 0 0.

End VarIntExt.

(* ------------------------------------------------------------------ *)
(** ** protocol/steganography/frame.go and selector.go: the rest *)

Module FrameOps.
Import Stego.

(** [f.SetFlag(flag)]: [f.Flags |= flag]. The method updates the frame in
    place; here it returns the updated frame. *)
Definition SetFlag (f : Frame) (flag : Z) : Frame :=
  mkFrame (StreamID f) (Sequence f) (Z.lor (Flags f) flag) (Length f) (Data f).

(** [f.ClearFlag(flag)]: [f.Flags &= ^flag], where [^flag] on a [uint8]
    is [flag ^ 0xFF]. *)
Definition ClearFlag (f : Frame) (flag : Z) : Frame :=
  mkFrame (StreamID f) (Sequence f) (Z.land (Flags f) (Z.lxor flag 255)) (Length f) (Data f).

(** [f.Size()]: [HeaderSize + len(f.Data)]. *)
Definition Size (f : Frame) : Z := HeaderSize + Z.of_nat (length (Data f)).

End FrameOps.

Module Selector.
Import Stego.

(** [GetMaxPayload] of the five-tier selector. *)
Definition GetMaxPayload_tiered (packetType : Z) : Z :=
  if packetType =? PacketTypeCustomPayload then 32760
  else if packetType =? PacketTypeChatMessage then 200
  else if packetType =? PacketTypePlayerMove then MaxDataPerPlayerMove
  else if packetType =? PacketTypePlayerAction then 5
  else if packetType =? PacketTypeHandSwing then 1
  else MaxDataPerPlayerMove.

(** [ShouldFragmentData]: [dataSize > GetMaxPayload(packetType)]. *)
Definition ShouldFragmentData (dataSize packetType : Z) : bool :=
  dataSize >? GetMaxPayload packetType.

(** [CalculateFragments]: Go's [/] and [%] on [int] truncate toward zero. *)
Definition CalculateFragments (dataSize packetType : Z) : Z :=
  let maxPayload := GetMaxPayload packetType in
  let fragments := Z.quot dataSize maxPayload in
  if negb (Z.rem dataSize maxPayload =? 0) then fragments + 1 else fragments.

(** The same two methods of the five-tier selector. *)
Definition ShouldFragmentData_tiered (dataSize packetType : Z) : bool :=
  dataSize >? GetMaxPayload_tiered packetType.

Definition CalculateFragments_tiered (dataSize packetType : Z) : Z :=
  let maxPayload := GetMaxPayload_tiered packetType in
  let fragments := Z.quot dataSize maxPayload in
  if negb (Z.rem dataSize maxPayload =? 0) then fragments + 1 else fragments.

End Selector.

(* ------------------------------------------------------------------ *)
(** ** The receive path: packet decoding and one turn of [readLoop]

    [minecraft.ReadDouble], [ReadFloat] and [ReadString] as the copy of the
    [minecraft] helpers in pkg/proxy/handler_test.go has them, the
    [Decode] methods of the two disguise packets (c2s), and one turn of
    [Multiplexer.readLoop] after its [closeCh] check. *)

Module Wire.
Import VarInt Envelope Stego.

(** [binary.BigEndian.Uint64] / [Uint32] of the bytes read. *)
Definition be_value (b : list Z) : Z := fold_left (fun acc x => Z.lor (Z.shiftl acc 8) x) b 0.

(** [binary.Read(r, binary.BigEndian, &bits)] for an [n]-byte unsigned
    integer: [io.ReadFull] of [n] bytes, which fails with [io.EOF] when
    nothing is left and with [io.ErrUnexpectedEOF] on a partial read. *)
Definition read_be (n : nat) (r : list Z) : result (Z * list Z) :=
  match r with
  | [] => Err ErrEOF
  | _ :: _ =>
      if (length r <? n)%nat then Err ErrUnexpectedEOF
      else Ok (be_value (take n r), drop n r)
  end.

(** [ReadDouble] / [ReadFloat]: the bit pattern of the float. *)
Definition ReadDouble (r : list Z) : result (Z * list Z) := read_be 8 r.
Definition ReadFloat (r : list Z) : result (Z * list Z) := read_be 4 r.

(** [PlayerMovePacket.Decode] on [bytes.NewReader(data)]. *)
Definition PlayerMove_Decode (r : list Z) : result PlayerMovePacket :=
  match ReadDouble r with
  | Err e => Err e
  | Ok (x, r1) =>
    match ReadDouble r1 with
    | Err e => Err e
    | Ok (y, r2) =>
      match ReadDouble r2 with
      | Err e => Err e
      | Ok (z, r3) =>
        match ReadFloat r3 with
        | Err e => Err e
        | Ok (yaw, r4) =>
          match ReadFloat r4 with
          | Err e => Err e
          | Ok (pitch, r5) =>
            (* io.ReadFull(r, buf) with len(buf) = 1 *)
            match r5 with
            | [] => Err ErrEOF
            | b :: _ => Ok (mkPlayerMove x y z yaw pitch b)
            end
          end
        end
      end
    end
  end.

(** [ReadString(r, maxLength)]. A length out of range is reported with
    [ErrInvalidLength] ("string length out of range"). *)
Definition ReadString (r : list Z) (maxLength : Z) : result (list Z * list Z) :=
  match ReadVarInt r with
  | Err e => Err e
  | Ok (length, r1) =>
      if (length <? 0) || (length >? maxLength) then Err ErrInvalidLength
      else if length =? 0 then Ok ([], r1)
      else
        match read_full (Z.to_nat length) r1 with
        | Some (buf, r2) => Ok (buf, r2)
        | None => match r1 with [] => Err ErrEOF | _ :: _ => Err ErrUnexpectedEOF end
        end
  end.

(** [CustomPayloadPacket.Decode] on [bytes.NewReader(data)]: the channel,
    then [io.ReadAll] of the rest (which cannot fail on a byte reader). *)
Definition CustomPayload_Decode (r : list Z) : result CustomPayloadPacket :=
  match ReadString r 32767 with
  | Err e => Err e
  | Ok (channel, rest) => Ok (mkCustomPayload channel rest)
  end.

(** How one turn of [readLoop] ends: [return] (the deferred [m.Close()]
    runs), [continue], or [m.handleFrame(frame)]; with the unread rest of
    the connection. *)
Inductive LoopStep :=
| LoopExit (e : go_error)
| LoopSkip (rest : list Z)
| LoopFrame (frame : Frame) (rest : list Z).

(** One turn of [Multiplexer.readLoop]: [ReadPacketRaw], then by packet id
    [DecodePacket] and the matching frame decoder; unknown packet ids and
    decoding errors are skipped. *)
Definition readLoop_step (r : list Z) : LoopStep :=
  match ReadPacketRaw r with
  | Err e => LoopExit e
  | Ok (packetID, data, rest) =>
      if packetID =? PacketTypePlayerMove then
        match PlayerMove_Decode data with
        | Err _ => LoopSkip rest
        | Ok pkt =>
            match DecodeFrame pkt with
            | Err _ => LoopSkip rest
            | Ok frame => LoopFrame frame rest
            end
        end
      else if packetID =? PacketTypeCustomPayload then
        match CustomPayload_Decode data with
        | Err _ => LoopSkip rest
        | Ok pkt =>
            match DecodeFrameFromCustomPayload pkt with
            | Err _ => LoopSkip rest
            | Ok frame => LoopFrame frame rest
            end
        end
      else LoopSkip rest
  end.

End Wire.

(* ------------------------------------------------------------------ *)
(** ** protocol/multiplexer/mux.go: incoming frames and [Multiplexer.Close] *)

Module MuxExt.
Import Stego Mux.

(** [m.acceptCh] has capacity 256. *)
Definition acceptChCap : nat := 256.

(** [handleNewStream], up to the SYN-ACK: a new stream in state Open at a
    fresh address, registered under the frame's id. *)
Definition register_new_stream (w : World) (id : Z) : World :=
  let a := next_addr w in
  mkWorld (<[a := set_state (newStream id) StreamStateOpen]> (heap w)) (S a)
    (<[id := a]> (streams w)) (nextStreamID w) (mclosed w) (conn_fails w)
    (rng w) (draws w) (wire w).

(** The SYN-ACK frame of [handleNewStream]. *)
Definition synAckFrame (id : Z) : Frame := mkFrame id 0 (Z.lor FlagSYN FlagACK) 0 [].

(** [Multiplexer.handleNewStream]. [acc] holds the streams (by address)
    waiting in [m.acceptCh], oldest first. After a successful SYN-ACK the
    [select] hands the stream to [acceptCh] when it has room, gives up
    when [closeCh] is closed, and closes the stream after 5 seconds, which
    can only win while [acceptCh] stays full. *)
Inductive handleNewStream (w : World) (acc : list nat) (frame : Frame)
  : World -> list nat -> Prop :=
| HNS_send_failed e w2 :
    sendFrame (register_new_stream w (StreamID frame)) (synAckFrame (StreamID frame)) = (Err e, w2) ->
    handleNewStream w acc frame (closeStream w2 (StreamID frame)) acc
| HNS_accepted w2 :
    sendFrame (register_new_stream w (StreamID frame)) (synAckFrame (StreamID frame)) = (Ok tt, w2) ->
    (length acc < acceptChCap)%nat ->
    handleNewStream w acc frame w2 (acc ++ [next_addr w])
| HNS_closed w2 :
    sendFrame (register_new_stream w (StreamID frame)) (synAckFrame (StreamID frame)) = (Ok tt, w2) ->
    mclosed w2 = true ->
    handleNewStream w acc frame w2 acc
| HNS_timeout w2 :
    sendFrame (register_new_stream w (StreamID frame)) (synAckFrame (StreamID frame)) = (Ok tt, w2) ->
    (acceptChCap <= length acc)%nat ->
    handleNewStream w acc frame (snd (Close w2 (next_addr w))) acc.

(** [Multiplexer.handleFrame]: a frame for an unknown id opens a stream if
    it carries SYN and is dropped otherwise; a frame for a known id goes
    to that stream's [handleFrame]. *)
Inductive MuxHandleFrame (w : World) (acc : list nat) (frame : Frame)
  : World -> list nat -> Prop :=
| MHF_new w' acc' :
    streams w !! StreamID frame = None -> HasFlag frame FlagSYN = true ->
    handleNewStream w acc frame w' acc' ->
    MuxHandleFrame w acc frame w' acc'
| MHF_unknown :
    streams w !! StreamID frame = None -> HasFlag frame FlagSYN = false ->
    MuxHandleFrame w acc frame w acc
| MHF_stream a w' :
    streams w !! StreamID frame = Some a -> HandleFrame w a frame w' ->
    MuxHandleFrame w acc frame w' acc.

(** [stream.Close()] as [Multiplexer.Close] calls it, holding
    [m.streamsMu]. If the [closeOnce] body has run it returns at once.
    Otherwise the body runs to its last statement,
    [s.mux.closeStream(s.id)], whose [m.streamsMu.Lock()] waits for the
    lock this goroutine holds ([sync.RWMutex] is not reentrant): [None],
    the call never returns. *)
Definition Close_holding_streamsMu (w : World) (a : nat) : option World :=
  match heap w !! a with
  | None => Some w
  | Some s => if st_closeOnce s then Some w else None
  end.

(** [for _, stream := range m.streams { stream.Close() }], visiting the
    table in the order [l]. *)
Fixpoint close_all (w : World) (l : list (Z * nat)) : option World :=
  match l with
  | [] => Some w
  | (_, a) :: l' =>
      match Close_holding_streamsMu w a with
      | None => None
      | Some w' => close_all w' l'
      end
  end.

Definition set_mclosed (w : World) : World :=
  mkWorld (heap w) (next_addr w) (streams w) (nextStreamID w) true (conn_fails w)
    (rng w) (draws w) (wire w).

(** [Multiplexer.Close]. [order] is the order in which [range] visits the
    stream table (Go leaves it unspecified) and [connErr] the result of
    [m.conn.Close()]. [None]: the call never returns. *)
Definition MuxClose (w : World) (order : list (Z * nat)) (connErr : option go_error)
  : option (option go_error * World) :=
  if mclosed w then Some (None, w)
  else
    match close_all (set_mclosed w) order with
    | None => None
    | Some w2 => Some (connErr, set_streams w2 ∅)
    end.

(** [Multiplexer.StreamCount]: [len(m.streams)]. *)
Definition StreamCount (w : World) : nat := size (streams w).

(** Whether closing the stream registered at an entry of [m.streams]
    returns while [Close] holds [streamsMu]. *)
Definition returns (w : World) (x : Z * nat) : bool :=
  match Close_holding_streamsMu w x.2 with Some _ => true | None => false end.

(** The largest chunk [Stream.Write] cuts ([maxPayload] for
    [PacketTypeCustomPayload]), as a [nat]. *)
Definition chunkMax : nat := Z.to_nat 32760.

End MuxExt.

Module PacketSize.
Import VarInt VarIntExt Stego.

(** [PlayerMovePacket.Size]. *)
Definition PlayerMove_Size (p : PlayerMovePacket) : Z := 8 + 8 + 8 + 4 + 4 + 1.

(** [CustomPayloadPacket.Size]: [VarIntSize(int32(len(p.Channel)))] plus
    the channel and data lengths; [None] when [VarIntSize] does not return. *)
Definition CustomPayload_Size (p : CustomPayloadPacket) : option Z :=
  match VarIntSize (to_int32 (Z.of_nat (length (cp_Channel p)))) with
  | None => None
  | Some n => Some (n + Z.of_nat (length (cp_Channel p)) + Z.of_nat (length (cp_Data p)))
  end.

End PacketSize.
(* ================================================================== *)
(** * Proofs *)

(** ** Bit-level facts *)

Module BitFacts.

(** A property of every integer of a small range, checked by evaluation. *)
Lemma Z_range_check (P : Z -> bool) (lo : Z) (n : nat) :
  forallb P (map (fun i => lo + Z.of_nat i) (seq 0 n)) = true ->
  forall z, lo <= z < lo + Z.of_nat n -> P z = true.
Proof.
  intros Hall z Hz. rewrite forallb_forall in Hall. apply Hall.
  apply in_map_iff. exists (Z.to_nat (z - lo)). split.
  - rewrite Z2Nat.id; lia.
  - apply in_seq. lia.
Qed.

Lemma lor_low_add (acc x p : Z) :
  0 <= p -> 0 <= acc < 2 ^ p ->
  Z.lor acc (x * 2 ^ p) = acc + x * 2 ^ p.
Proof.
  intros Hp Hacc.
  assert (Hdis : Z.land acc (x * 2 ^ p) = 0).
  { apply Z.bits_inj_0. intros i. rewrite Z.land_spec.
    destruct (Z.lt_ge_cases i p) as [Hi | Hi].
    - rewrite Z.mul_pow2_bits_low by lia. apply andb_false_r.
    - destruct (Z.lt_ge_cases i 0) as [Hn | Hn].
      + rewrite Z.testbit_neg_r by lia. reflexivity.
      + destruct (Z.eq_dec acc 0) as [-> | Hnz].
        * rewrite Z.bits_0. reflexivity.
        * rewrite Z.bits_above_log2; [reflexivity | lia |].
          apply Z.lt_le_trans with p; [apply Z.log2_lt_pow2; lia | lia]. }
  rewrite <- Z.lxor_lor by exact Hdis.
  rewrite <- Z.add_nocarry_lxor by exact Hdis. reflexivity.
Qed.

Lemma to_int32_small (z : Z) : 0 <= z < 2 ^ 31 -> to_int32 z = z.
Proof.
  intros Hz. unfold to_int32. rewrite Z.mod_small by lia.
  destruct (Z.ltb_spec z (2 ^ 31)); lia.
Qed.

Lemma land_255_small (z : Z) : 0 <= z < 256 -> Z.land z 255 = z.
Proof.
  intros Hz. change 255 with (Z.ones 8). rewrite Z.land_ones by lia.
  apply Z.mod_small. exact Hz.
Qed.

Lemma land_127_mod (z : Z) : Z.land z 127 = z mod 128.
Proof. change 127 with (Z.ones 7). rewrite Z.land_ones by lia. reflexivity. Qed.

Lemma ldiff_127 (v : Z) : Z.ldiff v 127 = v / 128 * 128.
Proof.
  change 127 with (Z.ones 7). rewrite Z.ldiff_ones_r by lia.
  rewrite Z.shiftl_mul_pow2, Z.shiftr_div_pow2 by lia. reflexivity.
Qed.

End BitFacts.

(** ** VarInt *)

Module VarIntFacts.
Import VarInt BitFacts.

Lemma continuation_byte (m : Z) :
  0 <= m < 128 ->
  Z.land (Z.lor m 128) 255 = m + 128 /\
  Z.land (m + 128) 127 = m /\ (Z.land (m + 128) 128 =? 0) = false.
Proof.
  intros Hm.
  pose proof (Z_range_check
    (fun m => (Z.land (Z.lor m 128) 255 =? m + 128) && (Z.land (m + 128) 127 =? m)
              && negb (Z.land (m + 128) 128 =? 0)) 0 128 ltac:(vm_compute; reflexivity) m
    ltac:(lia)) as H.
  apply andb_prop in H as [H H3]. apply andb_prop in H as [H1 H2].
  apply Z.eqb_eq in H1, H2. apply negb_true_iff in H3. auto.
Qed.

Lemma last_byte (m : Z) :
  0 <= m < 128 -> Z.land m 127 = m /\ (Z.land m 128 =? 0) = true.
Proof.
  intros Hm.
  pose proof (Z_range_check
    (fun m => (Z.land m 127 =? m) && (Z.land m 128 =? 0)) 0 128
    ltac:(vm_compute; reflexivity) m ltac:(lia)) as H.
  apply andb_prop in H as [H1 H2]. apply Z.eqb_eq in H1. auto.
Qed.

(** The loop of [WriteVarInt] on a negative value never reaches [break]:
    [value >>= 7] keeps it negative and [value&^0x7F] non-zero. *)
Lemma write_loop_negative (v : Z) (fuel : nat) :
  v < 0 -> write_loop fuel v = None.
Proof.
  revert v. induction fuel as [| fuel IH]; intros v Hv; simpl; [reflexivity |].
  assert (Hq : v / 128 < 0) by (apply Z.div_lt_upper_bound; lia).
  rewrite ldiff_127.
  destruct (Z.eqb_spec (v / 128 * 128) 0) as [E | _]; [lia |].
  rewrite IH; [reflexivity |].
  rewrite Z.shiftr_div_pow2 by lia. exact Hq.
Qed.

(** Round trip on the non-negative values, with the decoder's accumulator
    [acc] and bit [position] [pos] in the middle of a value. *)
Lemma write_read_nonneg (n : nat) :
  forall (fuel : nat) (v acc pos : Z),
    (n < fuel)%nat ->
    0 <= v < 2 ^ (7 * Z.of_nat (S n)) -> 0 <= pos -> 0 <= acc < 2 ^ pos ->
    acc + v * 2 ^ pos < 2 ^ 31 ->
    exists bs, write_loop fuel v = Some bs /\ (length bs <= S n)%nat /\
      forall rest, read_loop (bs ++ rest) acc pos = Ok (acc + v * 2 ^ pos, rest).
Proof.
  induction n as [| n IH]; intros fuel v acc pos Hfuel Hv Hpos Hacc Hsum;
    (destruct fuel as [| fuel]; [lia |]);
    assert (H2p : 0 < 2 ^ pos) by (apply Z.pow_pos_nonneg; lia).
  all: destruct (Z.ltb_spec v 128) as [Hsmall | Hbig].
  1, 3:
    (exists [to_byte v]; simpl; rewrite ldiff_127, Z.div_small by lia; simpl;
     split; [reflexivity | split; [lia |]];
     intros rest; unfold to_byte; rewrite land_255_small by lia;
     destruct (last_byte v ltac:(lia)) as [E1 E2]; rewrite E1, E2;
     rewrite Z.shiftl_mul_pow2 by lia;
     rewrite to_int32_small by nia;
     rewrite lor_low_add by lia; reflexivity).
  - simpl in Hv. lia.
  - set (m := v mod 128). set (q := v / 128).
    assert (Hvq : v = q * 128 + m) by (unfold q, m; pose proof (Z.div_mod v 128); lia).
    assert (Hm : 0 <= m < 128) by (unfold m; apply Z.mod_pos_bound; lia).
    assert (Hq1 : 1 <= q) by (unfold q; apply Z.div_le_lower_bound; lia).
    assert (Hp7 : 2 ^ (pos + 7) = 2 ^ pos * 128) by (rewrite Z.pow_add_r by lia; reflexivity).
    assert (Hpos7 : pos + 7 < 32).
    { destruct (Z.lt_ge_cases (pos + 7) 32) as [? | Hge]; [assumption |].
      assert (2 ^ 31 <= 2 ^ (pos + 7)) by (apply Z.pow_le_mono_r; lia). nia. }
    assert (Hqb : 0 <= q < 2 ^ (7 * Z.of_nat (S n))).
    { split; [lia |]. unfold q. apply Z.div_lt_upper_bound; [lia |].
      replace (7 * Z.of_nat (S (S n))) with (7 * Z.of_nat (S n) + 7) in Hv by lia.
      rewrite Z.pow_add_r in Hv by lia. lia. }
    destruct (IH fuel q (acc + m * 2 ^ pos) (pos + 7)) as (bs & Hw & Hl & Hr);
      [lia | exact Hqb | lia | nia | nia |].
    exists (to_byte (Z.lor (Z.land v 127) 128) :: bs). simpl.
    rewrite ldiff_127. fold q.
    destruct (Z.eqb_spec (q * 128) 0) as [E | _]; [lia |].
    rewrite Z.shiftr_div_pow2 by lia. change (2 ^ 7) with 128. fold q.
    rewrite Hw. split; [reflexivity | split; [simpl; lia |]].
    intros rest. unfold to_byte. rewrite land_127_mod. fold m.
    destruct (continuation_byte m Hm) as (E1 & E2 & E3).
    rewrite E1. simpl. rewrite E2, E3.
    rewrite Z.shiftl_mul_pow2 by lia. rewrite to_int32_small by nia.
    rewrite lor_low_add by lia.
    destruct (Z.geb_spec (pos + 7) 32) as [? | _]; [lia |].
    rewrite Hr. f_equal. f_equal. rewrite Hp7. nia.
Qed.

Lemma WriteVarInt_ReadVarInt_nonneg (v : Z) :
  0 <= v < 2 ^ 31 ->
  exists bs, WriteVarInt v = Some bs /\ (length bs <= 5)%nat /\ ReadVarInt bs = Ok (v, []).
Proof.
  intros Hv.
  destruct (write_read_nonneg 4 64 v 0 0) as (bs & Hw & Hl & Hr);
    [lia | simpl; lia | lia | simpl; lia | simpl; lia |].
  exists bs. split; [exact Hw | split; [exact Hl |]].
  unfold ReadVarInt. rewrite <- (app_nil_r bs), Hr. f_equal. f_equal. lia.
Qed.

Lemma WriteVarInt_ReadVarInt_nonneg_witness :
  0 <= 2097151 < 2 ^ 31 /\
  exists bs, WriteVarInt 2097151 = Some bs /\ (length bs <= 5)%nat /\
             ReadVarInt bs = Ok (2097151, []).
Proof. split; [lia | apply WriteVarInt_ReadVarInt_nonneg; lia]. Defined.

End VarIntFacts.

Module VarIntClaims.
Import VarInt VarIntFacts.

(** Claim C3 (code bug). [WriteVarInt] does not terminate on a negative
    value, here -1 and the smallest int32: no number of iterations of its
    loop reaches [break], because the arithmetic shift [value >>= 7] keeps
    the value negative. [ReadVarInt] itself decodes the 5-byte encodings
    of these values. The encoding of 300 is [0xAC, 0x02]. *)
Theorem WriteVarInt_negative_never_terminates :
  (forall fuel, write_loop fuel (-1) = None /\ write_loop fuel (-2147483648) = None) /\
  ReadVarInt [255; 255; 255; 255; 15] = Ok (-1, []) /\
  ReadVarInt [128; 128; 128; 128; 8] = Ok (-2147483648, []) /\
  WriteVarInt 300 = Some [172; 2].
Proof.
  split; [intros fuel; split; apply write_loop_negative; lia |].
  split; [reflexivity | split; reflexivity].
Qed.

End VarIntClaims.

(** ** The packet envelope *)

Module EnvelopeFacts.
Import VarInt Envelope.

Lemma ReadVarInt_2MiB (rest : list Z) :
  ReadVarInt ([128; 128; 128; 1] ++ rest) = Ok (2097152, rest).
Proof. reflexivity. Qed.

Lemma ReadPacketRaw_2MiB (rest : list Z) :
  ReadPacketRaw ([128; 128; 128; 1] ++ rest) = Err ErrInvalidLength.
Proof. reflexivity. Qed.

(** Claim C6 (counterexample). A packet whose length prefix says exactly
    2 MiB (2,097,152 bytes), followed by 2,097,152 bytes that start with
    the one-byte type tag 0, is rejected as an invalid length. (The
    2,097,152 bytes are the whole rest of the input, so they are also
    exactly the packet's bytes.) *)
Lemma ReadPacketRaw_rejects_exactly_2MiB :
  let rest := 0 :: replicate (Z.to_nat 2097151) 0 in
  ReadVarInt ([128; 128; 128; 1] ++ rest) = Ok (2097152, rest) /\
  Z.of_nat (length rest) = 2097152 /\
  ReadVarInt rest = Ok (0, replicate (Z.to_nat 2097151) 0) /\
  ReadPacketRaw ([128; 128; 128; 1] ++ rest) = Err ErrInvalidLength.
Proof.
  intros rest. split; [apply ReadVarInt_2MiB |].
  split.
  { transitivity (Z.of_nat (S (length (replicate (Z.to_nat 2097151) 0)))); [reflexivity |].
    rewrite length_replicate, Nat2Z.inj_succ, Z2Nat.id by lia. reflexivity. }
  split; [reflexivity |].
  apply ReadPacketRaw_2MiB.
Qed.

(** Claim C6 (amended). Once the length prefix is decoded, [ReadPacketRaw]
    fails with an invalid-length error when the length is <= 0 or larger
    than 2,097,151 (2^21 - 1); when it is in 1..2,097,151, the next
    [length] bytes are present and start with a well-formed VarInt type
    tag, one call consumes exactly those bytes, returns the tag and the
    rest of them, and leaves everything after them unread. *)
Theorem ReadPacketRaw_length_bounds (r r1 : list Z) (len : Z) :
  ReadVarInt r = Ok (len, r1) ->
  ((len <= 0 \/ 2097151 < len) -> ReadPacketRaw r = Err ErrInvalidLength) /\
  (forall pd rest tag payload,
     0 < len <= 2097151 -> r1 = pd ++ rest -> Z.of_nat (length pd) = len ->
     ReadVarInt pd = Ok (tag, payload) ->
     ReadPacketRaw r = Ok (tag, payload, rest)).
Proof.
  intros Hr. unfold ReadPacketRaw. rewrite Hr. split.
  - intros Hb.
    replace ((len <=? 0) || (len >? 2097151)) with true; [reflexivity |].
    destruct Hb as [Hb | Hb].
    + apply Z.leb_le in Hb. rewrite Hb. reflexivity.
    + rewrite orb_comm. replace (len >? 2097151) with true; [reflexivity |].
      symmetry. apply Z.gtb_lt. exact Hb.
  - intros pd rest tag payload Hb -> Hl Hpd.
    replace ((len <=? 0) || (len >? 2097151)) with false
      by (symmetry; apply orb_false_iff; split;
          [apply Z.leb_gt | rewrite Z.gtb_ltb; apply Z.ltb_ge]; lia).
    unfold read_full.
    assert (Hn : Z.to_nat len = length pd) by lia.
    rewrite Hn, length_app.
    replace (length pd + length rest <? length pd)%nat with false
      by (symmetry; apply Nat.ltb_ge; lia).
    rewrite take_app_length, drop_app_length, Hpd. reflexivity.
Qed.

Lemma ReadPacketRaw_length_bounds_witness :
  ReadVarInt [3; 26; 7; 8; 9] = Ok (3, [26; 7; 8; 9]) /\
  ReadPacketRaw [3; 26; 7; 8; 9] = Ok (26, [7; 8], [9]).
Proof.
  split; [reflexivity |].
  apply (proj2 (ReadPacketRaw_length_bounds [3; 26; 7; 8; 9] [26; 7; 8; 9] 3
                  ltac:(reflexivity)) [26; 7; 8] [9] 26 [7; 8]);
    [lia | reflexivity | reflexivity | reflexivity].
Defined.

End EnvelopeFacts.

(** ** The packet selector *)

Module SelectorClaims.
Import Stego.

(** Claim C2 (code bug). The selector sends a size of 10 to the PlayerMove
    disguise although its comments ("данные больше 9 байт" go to
    CustomPayload, "<= 9 байт" to PlayerMove) put the boundary between 9
    and 10; 9 goes to PlayerMove and 11 to CustomPayload. The five-tier
    variant does not send 10 to CustomPayload either. *)
Theorem SelectPacketType_boundary_is_10 :
  SelectPacketType 9 = PacketTypePlayerMove /\
  SelectPacketType 10 = PacketTypePlayerMove /\
  SelectPacketType 11 = PacketTypeCustomPayload /\
  SelectPacketType_tiered 10 <> PacketTypeCustomPayload.
Proof. repeat split; cbv; discriminate. Qed.

End SelectorClaims.

(** ** Steganographic round trip *)

Module StegoFacts.
Import Stego BitFacts StegoSpec.



Lemma land_255_byte (z : Z) : is_byte (Z.land z 255).
Proof.
  unfold is_byte. change 255 with (Z.ones 8). rewrite Z.land_ones by lia.
  pose proof (Z.mod_pos_bound z (2 ^ 8)). change (2 ^ 8) with 256 in *. lia.
Qed.

Lemma get_u16_value (a b : Z) :
  is_byte a -> is_byte b -> get_u16 [a; b] = a * 256 + b.
Proof.
  unfold is_byte, get_u16. simpl nth. intros Ha Hb.
  rewrite Z.shiftl_mul_pow2 by lia. rewrite lor_low_add by (simpl; lia). lia.
Qed.

Lemma get_u32_value (a b c d : Z) :
  is_byte a -> is_byte b -> is_byte c -> is_byte d ->
  get_u32 [a; b; c; d] = a * 2 ^ 24 + b * 2 ^ 16 + c * 2 ^ 8 + d.
Proof.
  unfold is_byte, get_u32. simpl nth. intros Ha Hb Hc Hd.
  rewrite !Z.shiftl_mul_pow2 by lia.
  rewrite (lor_low_add d c 8) by (simpl; lia).
  rewrite (lor_low_add (d + c * 2 ^ 8) b 16) by (simpl; lia).
  rewrite (lor_low_add (d + c * 2 ^ 8 + b * 2 ^ 16) a 24) by (simpl; lia).
  lia.
Qed.

Lemma byte_of (v k q r : Z) :
  0 <= k -> 0 <= r < 2 ^ k -> v = q * 2 ^ k + r -> 0 <= q ->
  Z.land (Z.shiftr v k) 255 = q mod 256.
Proof.
  intros Hk Hr Hv Hq. rewrite Z.shiftr_div_pow2 by lia.
  change 255 with (Z.ones 8). rewrite Z.land_ones by lia.
  f_equal. symmetry. apply (Z.div_unique _ _ _ r); lia.
Qed.

Lemma put_get_u16 (a b : Z) :
  is_byte a -> is_byte b -> put_u16 (get_u16 [a; b]) = [a; b].
Proof.
  intros Ha Hb. rewrite get_u16_value by assumption. unfold put_u16, is_byte in *.
  rewrite (byte_of _ 8 a b) by (simpl; lia).
  rewrite Z.mod_small by lia.
  change 255 with (Z.ones 8). rewrite Z.land_ones by lia.
  replace ((a * 256 + b) mod 2 ^ 8) with b; [reflexivity |].
  apply (Z.mod_unique _ _ a); simpl; lia.
Qed.

Lemma put_get_u32 (a b c d : Z) :
  is_byte a -> is_byte b -> is_byte c -> is_byte d ->
  put_u32 (get_u32 [a; b; c; d]) = [a; b; c; d].
Proof.
  intros Ha Hb Hc Hd. rewrite get_u32_value by assumption.
  unfold put_u32, is_byte in *.
  rewrite (byte_of _ 24 a (b * 2 ^ 16 + c * 2 ^ 8 + d)) by (simpl; lia).
  rewrite (byte_of _ 16 (a * 2 ^ 8 + b) (c * 2 ^ 8 + d)) by (simpl; lia).
  rewrite (byte_of _ 8 (a * 2 ^ 16 + b * 2 ^ 8 + c) d) by (simpl; lia).
  change 255 with (Z.ones 8). rewrite Z.land_ones by lia.
  rewrite (Z.mod_small a) by lia.
  replace ((a * 2 ^ 8 + b) mod 256) with b
    by (apply (Z.mod_unique _ _ a); simpl; lia).
  replace ((a * 2 ^ 16 + b * 2 ^ 8 + c) mod 256) with c
    by (apply (Z.mod_unique _ _ (a * 2 ^ 8 + b)); simpl; lia).
  replace ((a * 2 ^ 24 + b * 2 ^ 16 + c * 2 ^ 8 + d) mod 2 ^ 8) with d
    by (apply (Z.mod_unique _ _ (a * 2 ^ 16 + b * 2 ^ 8 + c)); simpl; lia).
  reflexivity.
Qed.

(** Masking the low [k] bits back out of [(base &^ low k bits) | w]. *)
Lemma low_bits_back (base w hi : Z) (k : Z) :
  0 <= k -> 0 <= w < 2 ^ k -> Z.land hi (Z.ones k) = 0 ->
  Z.land (Z.lor (Z.land base hi) w) (Z.ones k) = w.
Proof.
  intros Hk Hw Hhi. set (t := Z.land base hi).
  assert (Ht : t mod 2 ^ k = 0).
  { rewrite <- Z.land_ones by lia. unfold t.
    rewrite <- Z.land_assoc, Hhi. apply Z.land_0_r. }
  assert (Hte : t = t / 2 ^ k * 2 ^ k)
    by (pose proof (Z.div_mod t (2 ^ k)) as E;
        pose proof (Z.pow_pos_nonneg 2 k); lia).
  rewrite Hte, Z.lor_comm, lor_low_add by lia.
  rewrite Z.land_ones by lia. rewrite Z.mod_add by (pose proof (Z.pow_pos_nonneg 2 k); lia).
  apply Z.mod_small. exact Hw.
Qed.

Lemma double_roundtrip (base a b c d : Z) :
  is_byte a -> is_byte b -> is_byte c -> is_byte d ->
  put_u32 (decodeDataFromDouble (encodeDataInDouble base [a; b; c; d])) = [a; b; c; d].
Proof.
  intros Ha Hb Hc Hd. unfold decodeDataFromDouble, encodeDataInDouble. simpl length.
  cbv zeta. simpl Nat.leb. cbv iota.
  change 0xFFFFFFFF with (Z.ones 32).
  rewrite low_bits_back; [apply put_get_u32; assumption | lia | | reflexivity].
  rewrite get_u32_value by assumption. unfold is_byte in *. simpl. lia.
Qed.

Lemma float_roundtrip (base a b : Z) :
  is_byte a -> is_byte b ->
  put_u16 (decodeDataFromFloat (encodeDataInFloat base [a; b])) = [a; b].
Proof.
  intros Ha Hb. unfold decodeDataFromFloat, encodeDataInFloat. simpl length.
  cbv zeta. simpl Nat.leb. cbv iota.
  change 0xFFFF with (Z.ones 16).
  rewrite low_bits_back; [apply put_get_u16; assumption | lia | | reflexivity].
  rewrite get_u16_value by assumption. unfold is_byte in *. simpl. lia.
Qed.

End StegoFacts.

Module StegoRoundTrip.
Import Stego BitFacts StegoSpec StegoFacts.

#[local] Arguments get_u16 : simpl never.
#[local] Arguments get_u32 : simpl never.
#[local] Arguments encodeDataInDouble : simpl never.
#[local] Arguments encodeDataInFloat : simpl never.
#[local] Arguments decodeDataFromDouble : simpl never.
#[local] Arguments decodeDataFromFloat : simpl never.
#[local] Arguments put_u32 : simpl never.
#[local] Arguments put_u16 : simpl never.

Lemma get_put_u16 (x : Z) :
  0 <= x < 65536 -> get_u16 [Z.land (Z.shiftr x 8) 255; Z.land x 255] = x.
Proof.
  intros Hx. rewrite get_u16_value by apply land_255_byte.
  rewrite (byte_of x 8 (x / 256) (x mod 256)) by
    (simpl; pose proof (Z.mod_pos_bound x 256); pose proof (Z.div_mod x 256); try lia;
     apply Z.div_pos; lia).
  change 255 with (Z.ones 8). rewrite Z.land_ones by lia. change (2 ^ 8) with 256.
  rewrite (Z.mod_small (x / 256)) by (split; [apply Z.div_pos | apply Z.div_lt_upper_bound]; lia).
  pose proof (Z.div_mod x 256). lia.
Qed.

Lemma to_uint16_small (x : Z) : 0 <= x < 65536 -> to_uint16 x = x.
Proof.
  intros Hx. unfold to_uint16. change 65535 with (Z.ones 16).
  rewrite Z.land_ones by lia. apply Z.mod_small. exact Hx.
Qed.

(** The shared header parse recovers a well-formed frame from its payload
    stream, whatever follows it. *)
Lemma parse_frame_stream (fr : Frame) (rest : list Z) :
  frame_ok fr -> parse_frame (payload_stream fr ++ rest) = Ok fr.
Proof.
  destruct fr as [sid seq fl len data].
  intros (Hs & Hq & Hf & Hd & Hl & Hlen). simpl in *. subst len.
  unfold parse_frame, payload_stream, put_u16, slice. simpl.
  rewrite !get_put_u16 by (try rewrite to_uint16_small; lia).
  rewrite to_uint16_small by lia.
  destruct (Z.ltb_spec 0 (Z.of_nat (length data))) as [Hpos | Hz].
  - unfold HeaderSize.
    replace (7 + Z.of_nat (length data) >?
             Z.of_nat (S (S (S (S (S (S (S (length (data ++ rest)))))))))) with false
      by (symmetry; rewrite Z.gtb_ltb; apply Z.ltb_ge; rewrite length_app; lia).
    replace (Z.to_nat (7 + Z.of_nat (length data)) - 7)%nat with (length data) by lia.
    rewrite drop_0, take_app_length. reflexivity.
  - destruct data; [reflexivity | simpl in Hz; lia].
Qed.


Lemma DecodeFrame_carrier (p : PlayerMovePacket) :
  DecodeFrame p = parse_frame (carrier p).
Proof. reflexivity. Qed.

Ltac split_bytes :=
  repeat match goal with
  | H : Forall _ (_ :: _) |- _ => apply Forall_cons in H as [? H]
  end.

(** With at most 9 data bytes the payload stream (at most 16 bytes) is
    stored in the low bits of the coordinates and angles and comes back as
    the prefix of the decoder's 17 bytes. *)
Lemma carrier_prefix (rnd : Draw) (fr : Frame) (p : PlayerMovePacket) :
  frame_ok fr -> (length (Data fr) <= 9)%nat -> EncodeFrame rnd fr = Ok p ->
  exists rest, carrier p = payload_stream fr ++ rest.
Proof.
  destruct fr as [sid seq fl len data].
  intros (Hs & Hq & Hf & Hd & Hl & Hlen) H9 He. simpl in *.
  pose proof (land_255_byte (Z.shiftr sid 8)). pose proof (land_255_byte sid).
  pose proof (land_255_byte (Z.shiftr seq 8)). pose proof (land_255_byte seq).
  pose proof (land_255_byte (Z.shiftr (to_uint16 (Z.of_nat (length data))) 8)).
  pose proof (land_255_byte (to_uint16 (Z.of_nat (length data)))).
  assert (Hzero : is_byte 0) by (unfold is_byte; lia).
  do 10 (destruct data as [| ? data]; [
    unfold EncodeFrame, payload_stream, slice, pad, put_u16 in He; simpl in He;
    injection He as <-;
    unfold carrier; simpl pm_X; simpl pm_Y; simpl pm_Z; simpl pm_Yaw; simpl pm_Pitch;
    split_bytes;
    rewrite ?double_roundtrip, ?float_roundtrip by assumption;
    unfold payload_stream, put_u16; simpl; eexists; reflexivity | simpl in H9 ]).
  lia.
Qed.

Lemma length_payload_stream (fr : Frame) :
  length (payload_stream fr) = (7 + length (Data fr))%nat.
Proof. unfold payload_stream, put_u16. simpl. rewrite ?length_app. simpl. lia. Qed.

Lemma EncodeFrame_ok (rnd : Draw) (fr : Frame) :
  (length (Data fr) <= 10)%nat -> exists p, EncodeFrame rnd fr = Ok p.
Proof.
  intros H. unfold EncodeFrame, MaxDataPerPlayerMove.
  replace (Z.of_nat (length (Data fr)) >? 10) with false
    by (symmetry; rewrite Z.gtb_ltb; apply Z.ltb_ge; lia).
  eexists. reflexivity.
Qed.

(** The send path takes the PlayerMove disguise for at most 10 data bytes
    and the CustomPayload one above that. *)
Lemma encode_for_send_small (rnd : Draw) (fr : Frame) :
  (length (Data fr) <= 10)%nat ->
  encode_for_send rnd fr =
    match EncodeFrame rnd fr with Ok p => Ok (PMove p) | Err e => Err e end.
Proof.
  intros H. unfold encode_for_send, SelectPacketType, MaxDataPerPlayerMove.
  replace (Z.of_nat (length (Data fr)) >? 10) with false
    by (symmetry; rewrite Z.gtb_ltb; apply Z.ltb_ge; lia).
  reflexivity.
Qed.

Lemma encode_for_send_large (rnd : Draw) (fr : Frame) :
  (10 < length (Data fr))%nat ->
  encode_for_send rnd fr = Ok (PCustom (mkCustomPayload brand_channel (payload_stream fr))).
Proof.
  intros H. unfold encode_for_send, SelectPacketType, MaxDataPerPlayerMove.
  replace (Z.of_nat (length (Data fr)) >? 10) with true
    by (symmetry; rewrite Z.gtb_ltb; apply Z.ltb_lt; lia).
  reflexivity.
Qed.

(** Round trip through the send path for every well-formed frame except
    those with exactly 10 data bytes. *)
Lemma send_roundtrip (rnd : Draw) (fr : Frame) :
  frame_ok fr -> length (Data fr) <> 10%nat ->
  exists pkt, encode_for_send rnd fr = Ok pkt /\ decode_received pkt = Ok fr.
Proof.
  intros Hok H10. destruct (Nat.le_gt_cases (length (Data fr)) 9) as [Hs | Hl].
  - destruct (EncodeFrame_ok rnd fr) as [p Hp]; [lia |].
    rewrite encode_for_send_small, Hp by lia. exists (PMove p). split; [reflexivity |].
    destruct (carrier_prefix rnd fr p Hok Hs Hp) as [rest Hr].
    simpl. rewrite DecodeFrame_carrier, Hr. apply parse_frame_stream. exact Hok.
  - rewrite encode_for_send_large by lia. eexists. split; [reflexivity |].
    unfold decode_received, DecodeFrameFromCustomPayload. simpl cp_Data.
    rewrite length_payload_stream.
    replace ((7 + length (Data fr) <? 7)%nat) with false
      by (symmetry; apply Nat.ltb_ge; lia).
    rewrite <- (app_nil_r (payload_stream fr)). apply parse_frame_stream. exact Hok.
Qed.

(** With exactly 10 data bytes the PlayerMove disguise keeps only the two
    low bits of the last byte (in [Flags]): a last byte 255 decodes as 3. *)
Lemma ten_bytes_lossy :
  encode_for_send (mkDraw 0 0 0 0 0 0) (mkFrame 1 0 0 10 [0; 0; 0; 0; 0; 0; 0; 0; 0; 255])
    = Ok (PMove (mkPlayerMove 65536 2560 0 0 0 3)) /\
  decode_received (PMove (mkPlayerMove 65536 2560 0 0 0 3))
    = Ok (mkFrame 1 0 0 10 [0; 0; 0; 0; 0; 0; 0; 0; 0; 3]).
Proof. split; vm_compute; reflexivity. Qed.

End StegoRoundTrip.

(* ------------------------------------------------------------------ *)
(** ** The steganographic round trip *)

Module StegoClaims.
Import Stego StegoSpec StegoFacts StegoRoundTrip.

(** Claim C1: for every well-formed frame (a [uint16] StreamID and
    Sequence, a [uint8] Flags, bytes of data with [Length = len(Data)])
    whose payload stream (the 7-byte header followed by [Data]) has 1, 9,
    10 or 1000 bytes, the disguise packet the send path encodes it into
    decodes back to the same frame. A stream of 1 byte does not occur: the
    header alone has 7. *)
Theorem stego_roundtrip_sizes (rnd : Draw) (fr : Frame) :
  frame_ok fr -> In (length (payload_stream fr)) [1; 9; 10; 1000]%nat ->
  exists pkt, encode_for_send rnd fr = Ok pkt /\ decode_received pkt = Ok fr.
Proof.
  intros Hok Hin. apply send_roundtrip; [exact Hok |].
  rewrite length_payload_stream in Hin. simpl in Hin. lia.
Qed.


Lemma stego_roundtrip_sizes_witness :
  let fr := mkFrame 65535 300 255 2 [5; 250] in
  let rnd := mkDraw 4614253070214989087 4611686018427387904 0 1078530011 0 2 in
  (frame_ok fr /\ In (length (payload_stream fr)) [1; 9; 10; 1000]%nat) /\
  exists pkt, encode_for_send rnd fr = Ok pkt /\ decode_received pkt = Ok fr.
Proof.
  intros fr rnd.
  assert (Hok : frame_ok fr).
  { unfold frame_ok, is_byte; simpl; repeat split; try lia; repeat constructor; lia. }
  assert (Hin : In (length (payload_stream fr)) [1; 9; 10; 1000]%nat)
    by (simpl; tauto).
  split; [split; assumption |].
  apply (stego_roundtrip_sizes rnd fr Hok Hin).
Defined.

(** Round trip through the send path for every well-formed frame except
    one with exactly 10 data bytes, which takes the PlayerMove disguise
    but does not fit in it. *)
Theorem send_path_roundtrip (rnd : Draw) (fr : Frame) :
  frame_ok fr -> length (Data fr) <> 10%nat ->
  exists pkt, encode_for_send rnd fr = Ok pkt /\ decode_received pkt = Ok fr.
Proof. exact (send_roundtrip rnd fr). Qed.

Lemma send_path_roundtrip_witness :
  let fr := mkFrame 7 9 16 12 [1; 2; 3; 4; 5; 6; 7; 8; 9; 10; 11; 12] in
  (frame_ok fr /\ length (Data fr) <> 10%nat) /\
  exists pkt, encode_for_send (mkDraw 0 0 0 0 0 0) fr = Ok pkt /\ decode_received pkt = Ok fr.
Proof.
  intros fr.
  assert (Hok : frame_ok fr).
  { unfold frame_ok, is_byte; simpl; repeat split; try lia; repeat constructor; lia. }
  assert (H10 : length (Data fr) <> 10%nat) by discriminate.
  split; [split; assumption |].
  exact (send_path_roundtrip (mkDraw 0 0 0 0 0 0) fr Hok H10).
Defined.

End StegoClaims.

(* ------------------------------------------------------------------ *)
(** ** The stream object in the heap *)

Module MuxFacts.
Import Stego Mux MuxScenarios.

Lemma update_stream_same (w : World) (a : nat) (f : Stream -> Stream) (s : Stream) :
  heap w !! a = Some s -> heap (update_stream w a f) !! a = Some (f s).
Proof. intros H. unfold update_stream. rewrite H. simpl. apply lookup_insert_eq. Qed.

Lemma update_stream_none (w : World) (a : nat) (f : Stream -> Stream) :
  heap w !! a = None -> update_stream w a f = w.
Proof. intros H. unfold update_stream. rewrite H. reflexivity. Qed.

Lemma sendFrame_heap (w : World) (fr : Frame) : heap (snd (sendFrame w fr)) = heap w.
Proof.
  unfold sendFrame. destruct (mclosed w); [reflexivity |].
  destruct (encode_for_send _ _); [| reflexivity].
  destruct (conn_fails w); reflexivity.
Qed.

Lemma closeStream_heap (w : World) (id : Z) : heap (closeStream w id) = heap w.
Proof. reflexivity. Qed.


Lemma Close_runs (w : World) (a : nat) (s : Stream) :
  heap w !! a = Some s -> st_closeOnce s = false ->
  heap (snd (Close w a)) !! a = Some (closed_stream s).
Proof.
  intros H Hc. unfold Close. rewrite H, Hc. cbv zeta. unfold snd at 1.
  rewrite closeStream_heap.
  rewrite (update_stream_same _ _ _ (set_state (mark_closeOnce s) StreamStateClosing));
    [reflexivity |].
  rewrite sendFrame_heap.
  exact (update_stream_same _ _ (fun s => set_state (mark_closeOnce s) StreamStateClosing) s H).
Qed.

Lemma Close_done (w : World) (a : nat) (s : Stream) :
  heap w !! a = Some s -> st_closeOnce s = true -> Close w a = (None, w).
Proof. intros H Hc. unfold Close. rewrite H, Hc. reflexivity. Qed.

Lemma Close_missing (w : World) (a : nat) :
  heap w !! a = None -> Close w a = (None, w).
Proof. intros H. unfold Close. rewrite H. reflexivity. Qed.

(** With its [closeCh] open, no read deadline and a chunk queued, [Read]
    can only take the chunk. *)
Lemma Read_data_only (w : World) (a : nat) (n : nat) (s : Stream) data q res w' :
  heap w !! a = Some s -> st_closed s = false -> st_readDeadline s = false ->
  st_readBuf s = data :: q -> Read w a n res w' ->
  let k := Nat.min n (length data) in
  let q' := if (k <? length data)%nat then
              if (length q <? readBufCap)%nat then q ++ [drop k data] else q
            else q in
  res = (k, None, take k data) /\ w' = update_stream w a (fun s => set_readBuf s q').
Proof.
  intros Hs Hc Hd Hb HR. destruct HR as [s' data' q' Hs' Hb' | s' Hs' Hc' | s' Hs' Hd'];
    rewrite Hs in Hs'; injection Hs' as <-.
  - rewrite Hb in Hb'. injection Hb' as <- <-. split; reflexivity.
  - congruence.
  - congruence.
Qed.

(** With its [closeCh] closed, no read deadline and nothing queued,
    [Read] can only report EOF. *)
Lemma Read_eof_only (w : World) (a : nat) (n : nat) (s : Stream) res w' :
  heap w !! a = Some s -> st_readDeadline s = false -> st_readBuf s = [] ->
  Read w a n res w' -> res = (0%nat, Some ErrEOF, []) /\ w' = w.
Proof.
  intros Hs Hd Hb HR. destruct HR as [s' data' q' Hs' Hb' | s' Hs' Hc' | s' Hs' Hd'];
    rewrite Hs in Hs'; injection Hs' as <-.
  - congruence.
  - split; reflexivity.
  - congruence.
Qed.

End MuxFacts.

(* ------------------------------------------------------------------ *)
(** ** Stream ids *)

Module StreamIdClaims.
Import Stego Mux.

(** Claim C4: the first [OpenStream] on a new multiplexer registers its
    stream under id 0. [NewMultiplexer] leaves [nextStreamID] at its zero
    value and [OpenStream] hands out the current value before advancing
    it, so id 0 is assigned to a live stream (the skip to 1 happens only
    when the counter wraps). *)
Theorem OpenStream_first_id_is_zero (r : nat -> Draw) :
  fst (OpenStream (NewMultiplexer r) SynAckArrived) = Ok 0%nat /\
  streams (snd (OpenStream (NewMultiplexer r) SynAckArrived)) !! 0 = Some 0%nat /\
  option_map (fun s => (st_id s, st_state s))
    (heap (snd (OpenStream (NewMultiplexer r) SynAckArrived)) !! 0%nat)
  = Some (0, StreamStateOpen).
Proof. split; [| split]; vm_compute; reflexivity. Qed.

End StreamIdClaims.

(* ------------------------------------------------------------------ *)
(** ** Reading a stream *)

Module ReadClaims.
Import Stego Mux MuxScenarios MuxFacts.

(** Claim C5: two one-byte reads of an Open stream whose queue holds the
    chunks [1;2] and then [3] return [1] and then [3]: the rest [2] of the
    first chunk goes to the back of the queue. Every run does this (the
    stream has no read deadline and its [closeCh] is open), and [1;3] is
    not a prefix of the delivered bytes [1;2;3]. *)
Theorem Read_remainder_reordered res1 w1 res2 w2 :
  Read (world_of (open_stream [[1; 2]; [3]])) 0 1 res1 w1 ->
  Read w1 0 1 res2 w2 ->
  snd res1 ++ snd res2 = [1; 3] /\ ~ (snd res1 ++ snd res2) `prefix_of` ([1; 2] ++ [3]).
Proof.
  intros H1 H2.
  eapply (Read_data_only _ _ _ (open_stream [[1; 2]; [3]]) [1; 2] [[3]]) in H1;
    [| reflexivity | reflexivity | reflexivity | reflexivity].
  cbv zeta in H1. destruct H1 as [-> ->]. simpl in H2.
  eapply (Read_data_only _ _ _ (set_readBuf (open_stream [[1; 2]; [3]]) [[3]; [2]]) [3] [[2]])
    in H2; [| reflexivity | reflexivity | reflexivity | reflexivity].
  cbv zeta in H2. destruct H2 as [-> _]. simpl. split; [reflexivity |].
  intros [k Hk]. discriminate Hk.
Qed.

Lemma Read_remainder_reordered_witness :
  let w0 := world_of (open_stream [[1; 2]; [3]]) in
  let w1 := update_stream w0 0 (fun s => set_readBuf s [[3]; [2]]) in
  let w2 := update_stream w1 0 (fun s => set_readBuf s [[2]]) in
  (Read w0 0 1 (1%nat, None, [1]) w1 /\ Read w1 0 1 (1%nat, None, [3]) w2) /\
  snd (1%nat, @None go_error, [1]) ++ snd (1%nat, @None go_error, [3]) = [1; 3] /\
  ~ (snd (1%nat, @None go_error, [1]) ++ snd (1%nat, @None go_error, [3]))
      `prefix_of` ([1; 2] ++ [3]).
Proof.
  intros w0 w1 w2.
  assert (R1 : Read w0 0 1 (1%nat, None, [1]) w1)
    by (refine (Read_data _ _ _ (open_stream [[1; 2]; [3]]) [1; 2] [[3]] _ _); reflexivity).
  assert (R2 : Read w1 0 1 (1%nat, None, [3]) w2)
    by (refine (Read_data _ _ _ (set_readBuf (open_stream [[1; 2]; [3]]) [[3]; [2]]) [3] [[2]] _ _);
        reflexivity).
  split; [split; assumption |].
  exact (Read_remainder_reordered _ _ _ _ R1 R2).
Defined.

End ReadClaims.

(* ------------------------------------------------------------------ *)
(** ** FIN and RST *)

Module CloseClaims.
Import Stego Mux MuxScenarios MuxFacts.

(** What a FIN or RST leaves for readers: the stream at [a] is Closed with
    [closeCh] closed and its queue and deadline as before; a [Read] can
    always report EOF, and when nothing is queued and no deadline is set
    EOF is all it can report. *)
Lemma closed_for_reading (w' : World) (a : nat) (s' : Stream) :
  heap w' !! a = Some s' -> st_closed s' = true ->
  (forall n, Read w' a n (0%nat, Some ErrEOF, []) w') /\
  (st_readBuf s' = [] -> st_readDeadline s' = false ->
     forall n res w'', Read w' a n res w'' -> res = (0%nat, Some ErrEOF, []) /\ w'' = w').
Proof.
  intros Hs Hc. split.
  - intros n. exact (Read_closed _ _ _ s' Hs Hc).
  - intros Hb Hd n res w'' HR. exact (Read_eof_only _ _ _ s' _ _ Hs Hd Hb HR).
Qed.

(** Claim C7, counterexample: a frame carrying FIN together with SYN and
    ACK (flags 7) reaching an Open stream takes the SYN-ACK branch of
    [handleFrame]: the stream stays Open and, with nothing queued, no
    [Read] returns at all. And a stream that has a chunk queued when FIN
    arrives is Closed, yet a [Read] may still return that chunk. *)
Lemma fin_with_synack_keeps_stream_open :
  HasFlag (mkFrame 1 1 7 0 []) FlagFIN = true /\
  (forall w', HandleFrame (world_of (open_stream [])) 0 (mkFrame 1 1 7 0 []) w' ->
     option_map st_state (heap w' !! 0%nat) = Some StreamStateOpen /\
     forall n res w'', ~ Read w' 0 n res w'') /\
  (exists w' w'',
     HandleFrame (world_of (open_stream [[9]])) 0 (mkFrame 1 1 FlagFIN 0 []) w' /\
     option_map st_state (heap w' !! 0%nat) = Some StreamStateClosed /\
     Read w' 0 1 (1%nat, None, [9]) w'').
Proof.
  split; [reflexivity | split].
  - intros w' H.
    destruct H as [Hsa | Hsa | Hsa | s Hsa | s Hsa | s Hsa | Hsa];
      try (vm_compute in Hsa; discriminate Hsa).
    split; [reflexivity |].
    intros n res w'' HR.
    destruct HR as [s' data q Hs Hb | s' Hs Hc | s' Hs Hd];
      vm_compute in Hs; injection Hs as <-; discriminate.
  - eexists; eexists; split; [apply HF_fin; reflexivity | split; [reflexivity |]].
    refine (Read_data _ _ _ (closed_stream (open_stream [[9]])) [9] [] _ _); reflexivity.
Qed.

(** Claim C7, amended: a frame with FIN or RST leaves the stream Closed,
    with [closeCh] closed and its queue and deadline unchanged, when it does
    not also carry both SYN and ACK, on a stream whose [closeOnce] has run
    only together with its closing (as [Stream.Close] does). After it a
    [Read] can always return EOF, and returns nothing else while no data is
    queued and no read deadline is set; queued data may still be read. A
    frame that also carries SYN and ACK only opens the stream: its state
    becomes Open, its SYN-ACK signal is raised, and nothing else in the
    multiplexer changes. *)
Theorem fin_rst_closes_stream (w : World) (a : nat) (s : Stream) (frame : Frame) (w' : World) :
  heap w !! a = Some s ->
  (st_closeOnce s = true -> st_state s = StreamStateClosed /\ st_closed s = true) ->
  HasFlag frame FlagFIN || HasFlag frame FlagRST = true ->
  HandleFrame w a frame w' ->
  if HasFlag frame FlagACK && HasFlag frame FlagSYN then
    w' = set_heap w (<[a := set_synAck (set_state s StreamStateOpen) true]> (heap w)) /\
    option_map st_state (heap w' !! a) = Some StreamStateOpen
  else
    exists s', heap w' !! a = Some s' /\
      st_state s' = StreamStateClosed /\ st_closed s' = true /\
      st_readBuf s' = st_readBuf s /\ st_readDeadline s' = st_readDeadline s /\
      (forall n, Read w' a n (0%nat, Some ErrEOF, []) w') /\
      (st_readBuf s = [] -> st_readDeadline s = false ->
         forall n res w'', Read w' a n res w'' -> res = (0%nat, Some ErrEOF, []) /\ w'' = w').
Proof.
  intros Hs Hinv Hfr H.
  destruct (HasFlag frame FlagACK && HasFlag frame FlagSYN) eqn:Hsa.
  - destruct H as [_ | Hsa' | Hsa' | s0 Hsa' | s0 Hsa' | s0 Hsa' | Hsa'];
      try congruence.
    unfold update_stream. rewrite Hs. split; [reflexivity |].
    simpl. rewrite lookup_insert_eq. reflexivity.
  - assert (Hclose : exists s', heap (snd (Close w a)) !! a = Some s' /\
              st_state s' = StreamStateClosed /\ st_closed s' = true /\
              st_readBuf s' = st_readBuf s /\ st_readDeadline s' = st_readDeadline s).
    { destruct (st_closeOnce s) eqn:Hc.
      - rewrite (Close_done _ _ s Hs Hc). exists s. destruct (Hinv eq_refl). auto.
      - exists (closed_stream s). rewrite (Close_runs _ _ s Hs Hc). auto. }
    assert (Hw' : w' = snd (Close w a)).
    { destruct H as [Hsa' | _ _ | _ _ _ | s0 _ Hf Hr | s0 _ Hf Hr | s0 _ Hf Hr | _ Hf Hr _];
        try congruence; rewrite Hf, Hr in Hfr; discriminate Hfr. }
    subst w'. destruct Hclose as (s' & Hs' & Hst & Hcl & Hb & Hd).
    exists s'. do 5 (split; [assumption |]).
    rewrite <- Hb, <- Hd. apply closed_for_reading; assumption.
Qed.

Lemma fin_rst_closes_stream_witness :
  let w := world_of (open_stream []) in
  let frame := mkFrame 1 1 FlagFIN 0 [] in
  (heap w !! 0%nat = Some (open_stream []) /\
   (st_closeOnce (open_stream []) = true ->
      st_state (open_stream []) = StreamStateClosed /\ st_closed (open_stream []) = true) /\
   HasFlag frame FlagFIN || HasFlag frame FlagRST = true /\
   HandleFrame w 0 frame (snd (Close w 0))) /\
  exists s', heap (snd (Close w 0)) !! 0%nat = Some s' /\
    st_state s' = StreamStateClosed /\ st_closed s' = true /\
    st_readBuf s' = st_readBuf (open_stream []) /\
    st_readDeadline s' = st_readDeadline (open_stream []) /\
    (forall n, Read (snd (Close w 0)) 0 n (0%nat, Some ErrEOF, []) (snd (Close w 0))) /\
    (st_readBuf (open_stream []) = [] -> st_readDeadline (open_stream []) = false ->
       forall n res w'', Read (snd (Close w 0)) 0 n res w'' ->
         res = (0%nat, Some ErrEOF, []) /\ w'' = snd (Close w 0)).
Proof.
  intros w frame.
  assert (H1 : heap w !! 0%nat = Some (open_stream [])) by reflexivity.
  assert (H2 : st_closeOnce (open_stream []) = true ->
      st_state (open_stream []) = StreamStateClosed /\ st_closed (open_stream []) = true)
    by (intros Hc; discriminate Hc).
  assert (H3 : HasFlag frame FlagFIN || HasFlag frame FlagRST = true) by reflexivity.
  assert (HF : HandleFrame w 0 frame (snd (Close w 0))) by (apply HF_fin; reflexivity).
  split; [tauto |].
  exact (fin_rst_closes_stream w 0 (open_stream []) frame (snd (Close w 0)) H1 H2 H3 HF).
Defined.

(** Claim C8: [Stream.Write] on a Closing or Closed stream returns
    [(0, io.ErrClosedPipe)] and leaves the world as it was: no frame is
    sent, and the stream (state, sequence number) and the stream table are
    unchanged. *)
Theorem Write_on_closed_stream (w : World) (a : nat) (s : Stream) (p : list Z) :
  heap w !! a = Some s ->
  st_state s = StreamStateClosing \/ st_state s = StreamStateClosed ->
  Write w a p = ((0%nat, Some ErrClosedPipe), w).
Proof.
  intros Hs Hst. unfold Write. rewrite Hs.
  destruct Hst as [-> | ->]; reflexivity.
Qed.

Lemma Write_on_closed_stream_witness :
  let s := mkStream 1 5 [] false true true false StreamStateClosed in
  (heap (world_of s) !! 0%nat = Some s /\
   (st_state s = StreamStateClosing \/ st_state s = StreamStateClosed)) /\
  Write (world_of s) 0 [1; 2; 3] = ((0%nat, Some ErrClosedPipe), world_of s).
Proof.
  intros s.
  assert (Hs : heap (world_of s) !! 0%nat = Some s) by reflexivity.
  assert (Hst : st_state s = StreamStateClosing \/ st_state s = StreamStateClosed)
    by (right; reflexivity).
  split; [split; assumption |].
  exact (Write_on_closed_stream (world_of s) 0 s [1; 2; 3] Hs Hst).
Defined.

(** Claim C10: [Stream.Close] returns nil whatever the stream's state and
    whether or not sending the FIN frame fails, and a second [Close] is a
    no-op that also returns nil. *)
Theorem Close_always_nil (w : World) (a : nat) :
  fst (Close w a) = None /\ Close (snd (Close w a)) a = (None, snd (Close w a)).
Proof.
  destruct (heap w !! a) as [s |] eqn:Hs.
  - destruct (st_closeOnce s) eqn:Hc.
    + rewrite (Close_done _ _ s Hs Hc). simpl. rewrite (Close_done _ _ s Hs Hc). auto.
    + split; [unfold Close; rewrite Hs, Hc; reflexivity |].
      apply (Close_done _ _ (closed_stream s)); [apply Close_runs; assumption | reflexivity].
  - rewrite (Close_missing _ _ Hs). simpl. rewrite (Close_missing _ _ Hs). auto.
Qed.

End CloseClaims.

(* ------------------------------------------------------------------ *)
(** ** [writeMu]: what reaches the connection *)

Module SendLockFacts.
Import Stego SendLock SendLockSpec.



Lemma sent_step (p : Packet) (k : nat) :
  (k < 2)%nat -> sent p k ++ write_chunk p k = sent p (S k).
Proof. intros Hk. destruct k as [| [| k]]; [reflexivity | reflexivity | lia]. Qed.

Lemma sent_part_prefix (p : Packet) (k m : nat) :
  (k < 2)%nat -> (sent p k ++ take m (write_chunk p k)) `prefix_of` packet_wire p.
Proof.
  intros Hk. unfold packet_wire. destruct k as [| [| k]]; simpl.
  - apply prefix_app_r, prefix_take.
  - apply prefix_app, prefix_take.
  - lia.
Qed.

Lemma init_no_held (jobs : list (Draw * Frame)) i pkt k acc :
  threads (init jobs) !! i = Some (THeld pkt k acc) -> False.
Proof.
  simpl. revert i. induction jobs as [| j jobs IH]; intros i H; [discriminate |].
  destruct i as [| i]; [discriminate | exact (IH i H)].
Qed.

Lemma inv_init (jobs : list (Draw * Frame)) : inv (init jobs).
Proof.
  split; [| split; [| split]].
  - intros i pkt k acc H. exfalso. exact (init_no_held jobs i pkt k acc H).
  - intros i H. discriminate.
  - intros _. reflexivity.
  - constructor.
Qed.

(** A goroutine that is not past [Lock] changing its own slot. *)
Lemma inv_other_thread (c : Config) (i : nat) (t t' : Thread) :
  inv c -> threads c !! i = Some t ->
  (forall pkt k acc, t <> THeld pkt k acc) -> (forall pkt k acc, t' <> THeld pkt k acc) ->
  inv (mkConfig (lock c) (<[i := t']> (threads c)) (conn_bytes c) (written c)).
Proof.
  intros (I1 & I2 & I3 & I4) Ht Hn Hn'. split; [| split; [| split]]; simpl.
  - intros j pkt k acc Hj. apply list_lookup_insert_Some in Hj as [(-> & Ht' & _) | (_ & Hj)].
    + exfalso. exact (Hn' pkt k acc Ht').
    + exact (I1 j pkt k acc Hj).
  - intros j Hl. destruct (I2 j Hl) as (pkt & k & acc & Hj).
    exists pkt, k, acc. rewrite list_lookup_insert_ne; [exact Hj |].
    intros <-. rewrite Ht in Hj. injection Hj as Hj. exact (Hn pkt k acc Hj).
  - exact I3.
  - exact I4.
Qed.

Lemma inv_step (c c' : Config) : inv c -> step c c' -> inv c'.
Proof.
  intros HI Hs. destruct Hs as
    [c i rnd fr pkt Ht He | c i rnd fr e Ht He | c i pkt Hl Ht
    | c i pkt k acc Hl Ht Hk | c i pkt k acc m Hl Ht Hk part | c i pkt acc Hl Ht].
  - apply (inv_other_thread c i (TStart rnd fr)); auto; discriminate.
  - apply (inv_other_thread c i (TStart rnd fr)); auto; discriminate.
  - destruct HI as (I1 & I2 & I3 & I4). split; [| split; [| split]]; simpl.
    + intros j pkt' k acc Hj. apply list_lookup_insert_Some in Hj as [(-> & Hj & _) | (Hne & Hj)].
      * injection Hj as <- <- <-. rewrite app_nil_r. auto.
      * destruct (I1 j pkt' k acc Hj) as [Hl' _]. congruence.
    + intros j Hj. injection Hj as <-. exists pkt, 0%nat, [].
      apply list_lookup_insert_eq. eapply lookup_lt_Some. exact Ht.
    + discriminate.
    + exact I4.
  - destruct HI as (I1 & I2 & I3 & I4). destruct (I1 i pkt k acc Ht) as (_ & _ & Hacc & Hc).
    split; [| split; [| split]]; simpl.
    + intros j pkt' k' acc' Hj.
      apply list_lookup_insert_Some in Hj as [(-> & Hj & _) | (Hne & Hj)].
      * injection Hj as <- <- <-. subst acc.
        split; [exact Hl |]. split; [lia |]. split; [apply sent_step; exact Hk |].
        rewrite Hc, app_assoc. reflexivity.
      * destruct (I1 j pkt' k' acc' Hj) as [Hl' _]. congruence.
    + intros j Hj. exists pkt, (S k), (acc ++ write_chunk pkt k).
      rewrite Hl in Hj. injection Hj as <-.
      apply list_lookup_insert_eq. eapply lookup_lt_Some. exact Ht.
    + rewrite Hl. discriminate.
    + exact I4.
  - destruct HI as (I1 & I2 & I3 & I4). destruct (I1 i pkt k acc Ht) as (_ & _ & Hacc & Hc).
    split; [| split; [| split]]; simpl.
    + intros j pkt' k' acc' Hj.
      apply list_lookup_insert_Some in Hj as [(-> & Hj & _) | (Hne & Hj)]; [discriminate |].
      destruct (I1 j pkt' k' acc' Hj) as [Hl' _]. congruence.
    + discriminate.
    + intros _. rewrite Hc, map_app, concat_app. simpl. rewrite app_nil_r, app_assoc.
      reflexivity.
    + apply Forall_app. split; [exact I4 |]. constructor; [| constructor]. simpl.
      subst part. rewrite Hacc. apply sent_part_prefix. exact Hk.
  - destruct HI as (I1 & I2 & I3 & I4). destruct (I1 i pkt 2%nat acc Ht) as (_ & _ & Hacc & Hc).
    split; [| split; [| split]]; simpl.
    + intros j pkt' k' acc' Hj.
      apply list_lookup_insert_Some in Hj as [(-> & Hj & _) | (Hne & Hj)]; [discriminate |].
      destruct (I1 j pkt' k' acc' Hj) as [Hl' _]. congruence.
    + discriminate.
    + intros _. rewrite Hc, map_app, concat_app. simpl. rewrite app_nil_r. reflexivity.
    + apply Forall_app. split; [exact I4 |]. constructor; [| constructor]. simpl.
      rewrite Hacc. reflexivity.
Qed.

Lemma inv_rtc (c c' : Config) : rtc step c c' -> inv c -> inv c'.
Proof. induction 1 as [c | c c1 c' Hs _ IH]; [auto | intros HI; apply IH, (inv_step c)]; auto. Qed.

End SendLockFacts.

Module SendLockClaims.
Import Stego SendLock SendLockSpec SendLockFacts.

(** Claim C9: in every interleaving of goroutines running [sendFrame],
    each frame is encoded into one disguise packet and the connection
    carries the packets' bytes one packet after another: it is the
    concatenation, in the order the writes ended, of the bytes each
    finished [WritePacket] wrote (each a prefix of that packet's bytes),
    followed by the bytes of the one goroutine holding [writeMu], if
    any. *)
Theorem sendFrame_writes_not_interleaved (jobs : list (Draw * Frame)) (c : Config) :
  reachable jobs c ->
  exists partial,
    conn_bytes c = concat (map snd (written c)) ++ partial /\
    Forall (fun e => snd e `prefix_of` packet_wire (fst e)) (written c) /\
    (forall i pkt k acc, threads c !! i = Some (THeld pkt k acc) ->
       lock c = Some i /\ partial = acc /\ acc `prefix_of` packet_wire pkt) /\
    (lock c = None -> partial = []).
Proof.
  intros Hr. destruct (inv_rtc _ _ Hr (inv_init jobs)) as (I1 & I2 & I3 & I4).
  destruct (lock c) as [h |] eqn:Hl.
  - destruct (I2 h eq_refl) as (pkt & k & acc & Hh).
    destruct (I1 h pkt k acc Hh) as (_ & Hk & Hacc & Hc).
    exists acc. split; [exact Hc | split; [exact I4 | split]].
    + intros i pkt' k' acc' Hi. destruct (I1 i pkt' k' acc' Hi) as (Hli & Hk' & Hacc' & _).
      injection Hli as <-. rewrite Hh in Hi. injection Hi as <- <- <-.
      split; [reflexivity | split; [reflexivity |]].
      subst acc. destruct k as [| [| k]]; simpl.
      * apply prefix_nil.
      * unfold packet_wire. apply prefix_app_r. reflexivity.
      * reflexivity.
    + discriminate.
  - exists []. rewrite app_nil_r. split; [exact (I3 eq_refl) | split; [exact I4 | split]].
    + intros i pkt k acc Hi. destruct (I1 i pkt k acc Hi) as [Hli _]. discriminate.
    + reflexivity.
Qed.

(** Evaluate the configuration a run has reached before its next step. *)
Ltac norm_cfg :=
  match goal with |- rtc _ ?x _ => let x' := eval vm_compute in x in change x with x' end.

Lemma sendFrame_writes_not_interleaved_witness :
  let rnd := mkDraw 0 0 0 0 0 0 in
  let jobs := [(rnd, mkFrame 1 0 0 1 [42]); (rnd, mkFrame 3 7 0 2 [5; 6])] in
  exists c, (reachable jobs c /\ length (written c) = 1%nat /\ lock c <> None) /\
  exists partial,
    conn_bytes c = concat (map snd (written c)) ++ partial /\
    Forall (fun e => snd e `prefix_of` packet_wire (fst e)) (written c) /\
    (forall i pkt k acc, threads c !! i = Some (THeld pkt k acc) ->
       lock c = Some i /\ partial = acc /\ acc `prefix_of` packet_wire pkt) /\
    (lock c = None -> partial = []).
Proof.
  intros rnd jobs.
  eexists.
  match goal with |- (reachable _ ?c /\ _) /\ _ => assert (R : reachable jobs c) end.
  { (* both goroutines encode; the first sends its packet, the second
       takes the lock and writes the length prefix *)
    unfold reachable.
    eapply rtc_l; [eapply (step_encode_ok _ 0); reflexivity | norm_cfg].
    eapply rtc_l; [eapply (step_encode_ok _ 1); reflexivity | norm_cfg].
    eapply rtc_l; [eapply (step_lock _ 0); reflexivity | norm_cfg].
    eapply rtc_l; [eapply (step_write _ 0); [reflexivity | reflexivity | lia] | norm_cfg].
    eapply rtc_l; [eapply (step_write _ 0); [reflexivity | reflexivity | lia] | norm_cfg].
    eapply rtc_l; [eapply (step_unlock _ 0); reflexivity | norm_cfg].
    eapply rtc_l; [eapply (step_lock _ 1); reflexivity | norm_cfg].
    eapply rtc_l; [eapply (step_write _ 1); [reflexivity | reflexivity | lia] | norm_cfg].
    apply rtc_refl. }
  split; [split; [exact R | split; [reflexivity | discriminate]] |].
  exact (sendFrame_writes_not_interleaved jobs _ R).
Defined.

End SendLockClaims.





Module VarIntExtFacts.
Import VarInt VarIntExt BitFacts VarIntFacts.

Lemma to_int64_small (z : Z) : 0 <= z < 2 ^ 63 -> to_int64 z = z.
Proof.
  intros Hz. unfold to_int64. rewrite Z.mod_small by lia.
  destruct (Z.ltb_spec z (2 ^ 63)); lia.
Qed.

(** The size loop counts the iterations of the write loop. *)
Lemma size_loop_write_loop (fuel : nat) :
  forall (v k : Z),
    size_loop fuel v k = option_map (fun bs => k + Z.of_nat (length bs)) (write_loop fuel v).
Proof.
  induction fuel as [| fuel IH]; intros v k; simpl; [reflexivity |].
  destruct (Z.ldiff v 127 =? 0); [simpl; f_equal; lia |].
  rewrite IH. destruct (write_loop fuel (Z.shiftr v 7)); simpl; [f_equal; lia | reflexivity].
Qed.

Lemma write_read64_nonneg (n : nat) :
  forall (fuel : nat) (v acc pos : Z),
    (n < fuel)%nat ->
    0 <= v < 2 ^ (7 * Z.of_nat (S n)) -> 0 <= pos -> 0 <= acc < 2 ^ pos ->
    acc + v * 2 ^ pos < 2 ^ 63 ->
    exists bs, write_loop fuel v = Some bs /\ (length bs <= S n)%nat /\
      forall rest, read_loop64 (bs ++ rest) acc pos = Ok (acc + v * 2 ^ pos, rest).
Proof.
  induction n as [| n IH]; intros fuel v acc pos Hfuel Hv Hpos Hacc Hsum;
    (destruct fuel as [| fuel]; [lia |]);
    assert (H2p : 0 < 2 ^ pos) by (apply Z.pow_pos_nonneg; lia).
  all: destruct (Z.ltb_spec v 128) as [Hsmall | Hbig].
  1, 3:
    (exists [to_byte v]; simpl; rewrite ldiff_127, Z.div_small by lia; simpl;
     split; [reflexivity | split; [lia |]];
     intros rest; unfold to_byte; rewrite land_255_small by lia;
     destruct (last_byte v ltac:(lia)) as [E1 E2]; rewrite E1, E2;
     rewrite Z.shiftl_mul_pow2 by lia;
     rewrite to_int64_small by nia;
     rewrite lor_low_add by lia; reflexivity).
  - simpl in Hv. lia.
  - set (m := v mod 128). set (q := v / 128).
    assert (Hvq : v = q * 128 + m) by (unfold q, m; pose proof (Z.div_mod v 128); lia).
    assert (Hm : 0 <= m < 128) by (unfold m; apply Z.mod_pos_bound; lia).
    assert (Hq1 : 1 <= q) by (unfold q; apply Z.div_le_lower_bound; lia).
    assert (Hp7 : 2 ^ (pos + 7) = 2 ^ pos * 128) by (rewrite Z.pow_add_r by lia; reflexivity).
    assert (Hpos7 : pos + 7 < 64).
    { destruct (Z.lt_ge_cases (pos + 7) 64) as [? | Hge]; [assumption |].
      assert (2 ^ 63 <= 2 ^ (pos + 7)) by (apply Z.pow_le_mono_r; lia). nia. }
    assert (Hqb : 0 <= q < 2 ^ (7 * Z.of_nat (S n))).
    { split; [lia |]. unfold q. apply Z.div_lt_upper_bound; [lia |].
      replace (7 * Z.of_nat (S (S n))) with (7 * Z.of_nat (S n) + 7) in Hv by lia.
      rewrite Z.pow_add_r in Hv by lia. lia. }
    destruct (IH fuel q (acc + m * 2 ^ pos) (pos + 7)) as (bs & Hw & Hl & Hr);
      [lia | exact Hqb | lia | nia | nia |].
    exists (to_byte (Z.lor (Z.land v 127) 128) :: bs). simpl.
    rewrite ldiff_127. fold q.
    destruct (Z.eqb_spec (q * 128) 0) as [E | _]; [lia |].
    rewrite Z.shiftr_div_pow2 by lia. change (2 ^ 7) with 128. fold q.
    rewrite Hw. split; [reflexivity | split; [simpl; lia |]].
    intros rest. unfold to_byte. rewrite land_127_mod. fold m.
    destruct (continuation_byte m Hm) as (E1 & E2 & E3).
    rewrite E1. simpl. rewrite E2, E3.
    rewrite Z.shiftl_mul_pow2 by lia. rewrite to_int64_small by nia.
    rewrite lor_low_add by lia.
    destruct (Z.geb_spec (pos + 7) 64) as [? | _]; [lia |].
    rewrite Hr. f_equal. f_equal. rewrite Hp7. nia.
Qed.



End VarIntExtFacts.


Module VarIntExtClaims.
Import VarInt VarIntExt BitFacts VarIntFacts VarIntExtFacts.

(** X3: [VarIntSize] and [VarLongSize] count exactly the bytes [WriteVarInt] and
    [WriteVarLong] write for the same value: both loops run the same number
    of iterations, and both fail to return together. *)
Theorem VarIntSize_counts_written_bytes (v : Z) :
  (forall fuel, size_loop fuel v 0 =
     option_map (fun bs => Z.of_nat (length bs)) (write_loop fuel v)) /\
  VarIntSize v = option_map (fun bs => Z.of_nat (length bs)) (WriteVarInt v) /\
  VarLongSize v = option_map (fun bs => Z.of_nat (length bs)) (WriteVarLong v).
Proof.
  split; [intros fuel; apply size_loop_write_loop |].
  split; apply size_loop_write_loop.
Qed.

(** X5: [WriteVarLong] and [VarLongSize] never return for a negative int64:
    the arithmetic shift [value >>= 7] keeps the value negative, so the
    loop's exit test is never met, whatever the number of iterations. *)
Theorem VarLong_negative_never_terminates (v : Z) :
  v < 0 ->
  forall fuel, write_loop fuel v = None /\ size_loop fuel v 0 = None.
Proof.
  intros Hv fuel. rewrite size_loop_write_loop, write_loop_negative by exact Hv.
  split; reflexivity.
Qed.

Lemma VarLong_negative_never_terminates_witness :
  -1 < 0 /\ forall fuel, write_loop fuel (-1) = None /\ size_loop fuel (-1) 0 = None.
Proof. split; [lia | apply VarLong_negative_never_terminates; lia]. Defined.

(** X4: For every int64 value v with 0 <= v < 2^63, [WriteVarLong v] returns
    at most 9 bytes, and [ReadVarLong] on those bytes followed by anything
    returns v and leaves exactly what followed. *)
Theorem WriteVarLong_ReadVarLong_nonneg (v : Z) :
  0 <= v < 2 ^ 63 ->
  exists bs, WriteVarLong v = Some bs /\ (length bs <= 9)%nat /\
    forall rest, ReadVarLong (bs ++ rest) = Ok (v, rest).
Proof.
  intros Hv.
  destruct (write_read64_nonneg 8 64 v 0 0) as (bs & Hw & Hl & Hr);
    [lia | simpl; lia | lia | simpl; lia | simpl; lia |].
  exists bs. split; [exact Hw | split; [exact Hl |]].
  intros rest. unfold ReadVarLong. rewrite Hr. f_equal. f_equal. lia.
Qed.

Lemma WriteVarLong_ReadVarLong_nonneg_witness :
  0 <= 9223372036854775807 < 2 ^ 63 /\
  exists bs, WriteVarLong 9223372036854775807 = Some bs /\ (length bs <= 9)%nat /\
    forall rest, ReadVarLong (bs ++ rest) = Ok (9223372036854775807, rest).
Proof. split; [lia | apply WriteVarLong_ReadVarLong_nonneg; lia]. Defined.


End VarIntExtClaims.


Module FrameOpsFacts.
Import Stego FrameOps StegoSpec.

Lemma byte_testbit_high (x i : Z) : is_byte x -> 8 <= i -> Z.testbit x i = false.
Proof.
  intros Hx Hi. unfold is_byte in Hx.
  destruct (Z.eq_dec x 0) as [-> | Hnz]; [apply Z.bits_0 |].
  apply Z.bits_above_log2; [lia |].
  apply Z.lt_le_trans with 8; [| lia]. apply Z.log2_lt_pow2; [lia |]. simpl. lia.
Qed.

Lemma testbit_255 (i : Z) : 0 <= i < 8 -> Z.testbit 255 i = true.
Proof.
  intros Hi. change 255 with (Z.ones 8). apply Z.ones_spec_low. lia.
Qed.

End FrameOpsFacts.

Module FrameOpsClaims.
Import Stego FrameOps StegoSpec FrameOpsFacts.

(** X7: [SetFlag], [ClearFlag] and [HasFlag] on a frame's flag byte: after
    [SetFlag f flag] the (nonzero) flag is set, after [ClearFlag f flag] it
    is not, and neither touches another flag whose bits are disjoint. *)
Theorem SetFlag_ClearFlag_HasFlag (f : Frame) (flag other : Z) :
  is_byte flag -> is_byte other -> Z.land flag other = 0 ->
  (flag <> 0 -> HasFlag (SetFlag f flag) flag = true) /\
  HasFlag (ClearFlag f flag) flag = false /\
  HasFlag (SetFlag f flag) other = HasFlag f other /\
  HasFlag (ClearFlag f flag) other = HasFlag f other.
Proof.
  intros Hfl Hot Hdis. unfold HasFlag, SetFlag, ClearFlag; simpl.
  split; [| split; [| split]].
  - intros Hnz. rewrite Z.land_comm, Z.land_lor_distr_r, Z.land_diag.
    replace (Z.lor (Z.land flag (Flags f)) flag) with flag.
    + destruct (Z.eqb_spec flag 0); [contradiction | reflexivity].
    + apply Z.bits_inj'. intros i _. rewrite Z.lor_spec, Z.land_spec.
      destruct (Z.testbit flag i), (Z.testbit (Flags f) i); reflexivity.
  - replace (Z.land (Z.land (Flags f) (Z.lxor flag 255)) flag) with 0; [reflexivity |].
    apply Z.bits_inj'. intros i Hi. rewrite Z.bits_0, !Z.land_spec, Z.lxor_spec.
    destruct (Z.lt_ge_cases i 8) as [Hlt | Hge].
    + rewrite testbit_255 by lia.
      destruct (Z.testbit flag i), (Z.testbit (Flags f) i); reflexivity.
    + rewrite (byte_testbit_high flag i Hfl Hge), andb_false_r. reflexivity.
  - f_equal. f_equal. apply Z.bits_inj'. intros i _.
    rewrite !Z.land_spec, Z.lor_spec.
    assert (Hb := f_equal (fun z => Z.testbit z i) Hdis). simpl in Hb.
    rewrite Z.land_spec, Z.bits_0 in Hb.
    destruct (Z.testbit flag i), (Z.testbit other i), (Z.testbit (Flags f) i);
      simpl in *; congruence.
  - f_equal. f_equal. apply Z.bits_inj'. intros i Hi.
    rewrite !Z.land_spec, Z.lxor_spec.
    assert (Hb := f_equal (fun z => Z.testbit z i) Hdis). simpl in Hb.
    rewrite Z.land_spec, Z.bits_0 in Hb.
    destruct (Z.lt_ge_cases i 8) as [Hlt | Hge].
    + rewrite testbit_255 by lia.
      destruct (Z.testbit flag i), (Z.testbit other i), (Z.testbit (Flags f) i);
        simpl in *; congruence.
    + rewrite (byte_testbit_high other i Hot Hge). rewrite !andb_false_r. reflexivity.
Qed.

Lemma SetFlag_ClearFlag_HasFlag_witness :
  let f := mkFrame 1 0 FlagFIN 0 [] in
  (is_byte 1 /\ is_byte 4 /\ Z.land 1 4 = 0) /\
  (1 <> 0 -> HasFlag (SetFlag f 1) 1 = true) /\
  HasFlag (ClearFlag f 1) 1 = false /\
  HasFlag (SetFlag f 1) 4 = HasFlag f 4 /\
  HasFlag (ClearFlag f 1) 4 = HasFlag f 4.
Proof.
  intros f.
  assert (H1 : is_byte 1) by (unfold is_byte; lia).
  assert (H4 : is_byte 4) by (unfold is_byte; lia).
  assert (Hd : Z.land 1 4 = 0) by reflexivity.
  split; [tauto |]. exact (SetFlag_ClearFlag_HasFlag f 1 4 H1 H4 Hd).
Defined.

End FrameOpsClaims.

Module SelectorFacts.
Import Stego Selector.

Lemma ceil_quot (d m : Z) :
  0 <= d -> 0 < m ->
  (if negb (Z.rem d m =? 0) then Z.quot d m + 1 else Z.quot d m) = (d + m - 1) / m /\
  (d >? m) = (1 <? (d + m - 1) / m).
Proof.
  intros Hd Hm. rewrite Z.rem_mod_nonneg, Z.quot_div_nonneg by lia.
  pose proof (Z.div_mod d m ltac:(lia)) as E. pose proof (Z.mod_pos_bound d m Hm) as B.
  set (q := d / m) in *. set (r := d mod m) in *.
  assert (Hc : (d + m - 1) / m = if r =? 0 then q else q + 1).
  { destruct (Z.eqb_spec r 0) as [Hr | Hr].
    - symmetry; apply (Z.div_unique (d + m - 1) m q (m - 1)); [left; lia | lia].
    - symmetry; apply (Z.div_unique (d + m - 1) m (q + 1) (r - 1)); [left; lia | lia]. }
  rewrite Hc. destruct (Z.eqb_spec r 0) as [Hr | Hr]; simpl; split; try reflexivity.
  - destruct (Z.gtb_spec d m), (Z.ltb_spec 1 q); try reflexivity; nia.
  - destruct (Z.gtb_spec d m), (Z.ltb_spec 1 (q + 1)); try reflexivity; nia.
Qed.

Lemma GetMaxPayload_pos (pt : Z) : 0 < GetMaxPayload pt /\ 0 < GetMaxPayload_tiered pt.
Proof.
  unfold GetMaxPayload, GetMaxPayload_tiered, MaxDataPerPlayerMove.
  split; repeat (destruct (_ =? _)); lia.
Qed.

End SelectorFacts.

Module SelectorExtClaims.
Import Stego Selector SelectorFacts.

(** X8: [CalculateFragments] (both the two-tier and the five-tier selector) is
    the ceiling of the data size over the packet type's maximum payload,
    and [ShouldFragmentData] holds exactly when that count exceeds 1. *)
Theorem CalculateFragments_is_ceiling (dataSize packetType : Z) :
  0 <= dataSize ->
  CalculateFragments dataSize packetType =
    (dataSize + GetMaxPayload packetType - 1) / GetMaxPayload packetType /\
  ShouldFragmentData dataSize packetType = (1 <? CalculateFragments dataSize packetType) /\
  CalculateFragments_tiered dataSize packetType =
    (dataSize + GetMaxPayload_tiered packetType - 1) / GetMaxPayload_tiered packetType /\
  ShouldFragmentData_tiered dataSize packetType =
    (1 <? CalculateFragments_tiered dataSize packetType).
Proof.
  intros Hd. destruct (GetMaxPayload_pos packetType) as [H1 H2].
  destruct (ceil_quot dataSize (GetMaxPayload packetType) Hd H1) as [E1 F1].
  destruct (ceil_quot dataSize (GetMaxPayload_tiered packetType) Hd H2) as [E2 F2].
  unfold CalculateFragments, ShouldFragmentData, CalculateFragments_tiered,
    ShouldFragmentData_tiered.
  rewrite E1, E2. auto.
Qed.

Lemma CalculateFragments_is_ceiling_witness :
  0 <= 32761 /\
  CalculateFragments 32761 PacketTypeCustomPayload =
    (32761 + GetMaxPayload PacketTypeCustomPayload - 1) / GetMaxPayload PacketTypeCustomPayload /\
  ShouldFragmentData 32761 PacketTypeCustomPayload =
    (1 <? CalculateFragments 32761 PacketTypeCustomPayload) /\
  CalculateFragments_tiered 32761 PacketTypeCustomPayload =
    (32761 + GetMaxPayload_tiered PacketTypeCustomPayload - 1) /
      GetMaxPayload_tiered PacketTypeCustomPayload /\
  ShouldFragmentData_tiered 32761 PacketTypeCustomPayload =
    (1 <? CalculateFragments_tiered 32761 PacketTypeCustomPayload).
Proof. split; [lia | apply CalculateFragments_is_ceiling; lia]. Defined.

End SelectorExtClaims.


Module WireFacts.
Import VarInt Envelope Stego SendLock Wire BitFacts VarIntFacts StegoSpec StegoFacts.

Lemma lor_shift8 (acc b : Z) :
  0 <= b < 256 -> Z.lor (Z.shiftl acc 8) b = acc * 256 + b.
Proof.
  intros Hb. rewrite Z.shiftl_mul_pow2 by lia. rewrite Z.lor_comm.
  rewrite lor_low_add by (simpl; lia). lia.
Qed.

Lemma fold_bytes (l : list Z) :
  Forall is_byte l -> forall acc,
  fold_left (fun acc x => Z.lor (Z.shiftl acc 8) x) l acc =
    acc * 256 ^ Z.of_nat (length l) + be_value l.
Proof.
  unfold be_value. induction 1 as [| x l Hx Hl IH]; intros acc; simpl.
  - lia.
  - rewrite (IH (Z.lor (Z.shiftl acc 8) x)), (IH (Z.lor (Z.shiftl 0 8) x)).
    unfold is_byte in Hx. rewrite !lor_shift8 by lia.
    rewrite Nat2Z.inj_succ, Z.pow_succ_r by lia. ring.
Qed.

Lemma put_u32_bytes (v : Z) : Forall is_byte (put_u32 v).
Proof. unfold put_u32. repeat constructor; apply land_255_byte. Qed.

Lemma be_value_put_u32 (v : Z) : be_value (put_u32 v) = v mod 2 ^ 32.
Proof.
  unfold put_u32, be_value. simpl.
  rewrite !Z.shiftr_div_pow2 by lia. change 255 with (Z.ones 8). rewrite !Z.land_ones by lia.
  change (Z.shiftl 0 8) with 0. rewrite Z.lor_0_l.
  rewrite !lor_shift8 by (apply Z.mod_pos_bound; lia).
  change (2 ^ 8) with 256. change (2 ^ 16) with (256 * 256). change (2 ^ 24) with (256 * 256 * 256).
  rewrite <- !Z.div_div by lia.
  set (q1 := v / 256). set (q2 := q1 / 256). set (q3 := q2 / 256).
  pose proof (Z.div_mod v 256 ltac:(lia)) as E1. pose proof (Z.mod_pos_bound v 256 ltac:(lia)).
  pose proof (Z.div_mod q1 256 ltac:(lia)) as E2. pose proof (Z.mod_pos_bound q1 256 ltac:(lia)).
  pose proof (Z.div_mod q2 256 ltac:(lia)) as E3. pose proof (Z.mod_pos_bound q2 256 ltac:(lia)).
  pose proof (Z.div_mod q3 256 ltac:(lia)) as E4. pose proof (Z.mod_pos_bound q3 256 ltac:(lia)).
  fold q1 in E1. fold q2 in E2. fold q3 in E3.
  apply (Z.mod_unique v (2 ^ 32) (q3 / 256)); [left; simpl; lia |]. simpl. lia.
Qed.

Lemma be_value_put_u64 (v : Z) : be_value (put_u64 v) = v mod 2 ^ 64.
Proof.
  unfold put_u64. unfold be_value at 1. rewrite fold_left_app.
  fold (be_value (put_u32 (Z.shiftr v 32))).
  rewrite fold_bytes by apply put_u32_bytes.
  rewrite !be_value_put_u32. unfold put_u32 at 1. simpl length.
  rewrite Z.shiftr_div_pow2 by lia.
  change (256 ^ Z.of_nat 4) with (2 ^ 32).
  set (q := v / 2 ^ 32).
  pose proof (Z.div_mod v (2 ^ 32) ltac:(lia)) as E1. pose proof (Z.mod_pos_bound v (2 ^ 32) ltac:(lia)).
  pose proof (Z.div_mod q (2 ^ 32) ltac:(lia)) as E2. pose proof (Z.mod_pos_bound q (2 ^ 32) ltac:(lia)).
  fold q in E1.
  apply (Z.mod_unique v (2 ^ 64) (q / 2 ^ 32)); [left; simpl in *; lia |].
  simpl in *. lia.
Qed.

Lemma read_be_app (n : nat) (l rest : list Z) :
  length l = n -> (0 < n)%nat -> read_be n (l ++ rest) = Ok (be_value l, rest).
Proof.
  intros Hl Hn. unfold read_be. destruct l as [| x l']; [simpl in Hl; lia |].
  simpl app. rewrite app_comm_cons.
  replace (length ((x :: l') ++ rest) <? n)%nat with false
    by (symmetry; apply Nat.ltb_ge; rewrite length_app; lia).
  rewrite <- Hl, take_app_length, drop_app_length. reflexivity.
Qed.

End WireFacts.


Module WireRoundTrip.
Import VarInt Envelope Stego SendLock Wire BitFacts VarIntFacts StegoSpec StegoFacts StegoRoundTrip WireFacts.

Lemma land_mod_pow2 (x : Z) (n k : Z) (c : Z) :
  0 <= k <= n -> c = Z.ones k -> Z.land (x mod 2 ^ n) c = Z.land x c.
Proof.
  intros Hk ->. rewrite <- Z.land_ones by lia. rewrite <- Z.land_assoc. f_equal.
  apply Z.bits_inj'. intros i Hi. rewrite Z.land_spec, !Z.testbit_ones_nonneg by lia.
  destruct (Z.ltb_spec i k), (Z.ltb_spec i n); simpl; try reflexivity; lia.
Qed.

Lemma DecodeFrame_mod (m : PlayerMovePacket) :
  DecodeFrame (mkPlayerMove (pm_X m mod 2 ^ 64) (pm_Y m mod 2 ^ 64) (pm_Z m mod 2 ^ 64)
                 (pm_Yaw m mod 2 ^ 32) (pm_Pitch m mod 2 ^ 32) (pm_Flags m))
  = DecodeFrame m.
Proof.
  unfold DecodeFrame, decodeDataFromDouble, decodeDataFromFloat. simpl pm_X.
  simpl pm_Y. simpl pm_Z. simpl pm_Yaw. simpl pm_Pitch. simpl pm_Flags.
  rewrite !(land_mod_pow2 _ 64 32) by (lia || reflexivity).
  rewrite !(land_mod_pow2 _ 32 16) by (lia || reflexivity).
  reflexivity.
Qed.

Lemma length_put_u32 (v : Z) : length (put_u32 v) = 4%nat.
Proof. reflexivity. Qed.

Lemma length_put_u64 (v : Z) : length (put_u64 v) = 8%nat.
Proof. reflexivity. Qed.

Lemma PlayerMove_Decode_app (m : PlayerMovePacket) (rest : list Z) :
  PlayerMove_Decode (packet_body (PMove m) ++ rest) =
  Ok (mkPlayerMove (pm_X m mod 2 ^ 64) (pm_Y m mod 2 ^ 64) (pm_Z m mod 2 ^ 64)
        (pm_Yaw m mod 2 ^ 32) (pm_Pitch m mod 2 ^ 32) (pm_Flags m)).
Proof.
  unfold PlayerMove_Decode, packet_body, ReadDouble, ReadFloat. rewrite <- !app_assoc.
  rewrite (read_be_app 8 (put_u64 (pm_X m))) by (reflexivity || lia). cbv beta iota.
  rewrite (read_be_app 8 (put_u64 (pm_Y m))) by (reflexivity || lia). cbv beta iota.
  rewrite (read_be_app 8 (put_u64 (pm_Z m))) by (reflexivity || lia). cbv beta iota.
  rewrite (read_be_app 4 (put_u32 (pm_Yaw m))) by (reflexivity || lia). cbv beta iota.
  rewrite (read_be_app 4 (put_u32 (pm_Pitch m))) by (reflexivity || lia). cbv beta iota.
  rewrite !be_value_put_u64, !be_value_put_u32. reflexivity.
Qed.

Lemma PlayerMove_Decode_body (m : PlayerMovePacket) :
  PlayerMove_Decode (packet_body (PMove m)) =
  Ok (mkPlayerMove (pm_X m mod 2 ^ 64) (pm_Y m mod 2 ^ 64) (pm_Z m mod 2 ^ 64)
        (pm_Yaw m mod 2 ^ 32) (pm_Pitch m mod 2 ^ 32) (pm_Flags m)).
Proof. rewrite <- (app_nil_r (packet_body (PMove m))). apply PlayerMove_Decode_app. Qed.

(** A successful [read_be n] consumes exactly [n] bytes; a failed one
    reports [io.EOF] or [io.ErrUnexpectedEOF]. *)
Lemma read_be_ok (n : nat) (r r' : list Z) (v : Z) :
  read_be n r = Ok (v, r') -> (n <= length r)%nat /\ length r' = (length r - n)%nat.
Proof.
  unfold read_be. destruct r as [| b r0]; [discriminate |].
  destruct (Nat.ltb_spec (length (b :: r0)) n) as [_ | Hn]; [discriminate |].
  intros H. injection H as _ <-. rewrite length_drop. split; [exact Hn | reflexivity].
Qed.

Lemma read_be_err (n : nat) (r : list Z) (e : go_error) :
  read_be n r = Err e -> e = ErrEOF \/ e = ErrUnexpectedEOF.
Proof.
  unfold read_be. destruct r as [| b r0]; [intros H; injection H as <-; auto |].
  destruct (length (b :: r0) <? n)%nat; [intros H; injection H as <-; auto | discriminate].
Qed.

Lemma PlayerMove_Decode_short (r : list Z) :
  (length r < 33)%nat ->
  exists e, PlayerMove_Decode r = Err e /\ (e = ErrEOF \/ e = ErrUnexpectedEOF).
Proof.
  intros Hr. unfold PlayerMove_Decode, ReadDouble, ReadFloat.
  destruct (read_be 8 r) as [[x r1] | e] eqn:E1; [| exists e; eauto using read_be_err].
  apply read_be_ok in E1 as [_ L1].
  destruct (read_be 8 r1) as [[y r2] | e] eqn:E2; [| exists e; eauto using read_be_err].
  apply read_be_ok in E2 as [_ L2].
  destruct (read_be 8 r2) as [[z r3] | e] eqn:E3; [| exists e; eauto using read_be_err].
  apply read_be_ok in E3 as [_ L3].
  destruct (read_be 4 r3) as [[yaw r4] | e] eqn:E4; [| exists e; eauto using read_be_err].
  apply read_be_ok in E4 as [_ L4].
  destruct (read_be 4 r4) as [[pitch r5] | e] eqn:E5; [| exists e; eauto using read_be_err].
  apply read_be_ok in E5 as [H5 L5].
  destruct r5 as [| b r6]; [exists ErrEOF; auto |]. simpl in L5. lia.
Qed.

Lemma ReadString_written (ch rest : list Z) (maxLength : Z) :
  Z.of_nat (length ch) <= maxLength -> Z.of_nat (length ch) < 2 ^ 31 ->
  ReadString (opt_bytes (WriteVarInt (Z.of_nat (length ch))) ++ ch ++ rest) maxLength
  = Ok (ch, rest).
Proof.
  intros Hm H31.
  destruct (write_read_nonneg 4 64 (Z.of_nat (length ch)) 0 0) as (bs & Hw & _ & Hr);
    try (simpl; lia).
  unfold WriteVarInt. rewrite Hw. simpl opt_bytes.
  unfold ReadString, ReadVarInt. rewrite Hr.
  replace (0 + Z.of_nat (length ch) * 2 ^ 0) with (Z.of_nat (length ch)) by (simpl; lia).
  replace ((Z.of_nat (length ch) <? 0) || (Z.of_nat (length ch) >? maxLength)) with false
    by (symmetry; apply orb_false_iff; split; [apply Z.ltb_ge | rewrite Z.gtb_ltb; apply Z.ltb_ge]; lia).
  destruct ch as [| c ch'].
  - reflexivity.
  - replace (Z.of_nat (length (c :: ch')) =? 0) with false by (symmetry; apply Z.eqb_neq; simpl; lia).
    unfold read_full. rewrite Nat2Z.id.
    replace (length ((c :: ch') ++ rest) <? length (c :: ch'))%nat with false
      by (symmetry; apply Nat.ltb_ge; rewrite length_app; lia).
    rewrite take_app_length, drop_app_length. reflexivity.
Qed.

Lemma CustomPayload_Decode_body (c : CustomPayloadPacket) :
  Z.of_nat (length (cp_Channel c)) < 2 ^ 31 ->
  CustomPayload_Decode (packet_body (PCustom c)) =
    if Z.of_nat (length (cp_Channel c)) <=? 32767 then Ok c else Err ErrInvalidLength.
Proof.
  intros H31. destruct c as [ch data]. simpl cp_Channel in *.
  destruct (Z.leb_spec (Z.of_nat (length ch)) 32767) as [Hle | Hgt].
  - unfold CustomPayload_Decode. simpl packet_body.
    rewrite ReadString_written by lia. reflexivity.
  - destruct (write_read_nonneg 4 64 (Z.of_nat (length ch)) 0 0) as (bs & Hw & _ & Hr);
      try (simpl; lia).
    unfold CustomPayload_Decode, ReadString, ReadVarInt. simpl packet_body.
    unfold WriteVarInt. rewrite Hw. simpl opt_bytes. rewrite Hr.
    replace ((0 + Z.of_nat (length ch) * 2 ^ 0 <? 0) ||
             (0 + Z.of_nat (length ch) * 2 ^ 0 >? 32767)) with true
      by (symmetry; apply orb_true_iff; right; rewrite Z.gtb_ltb; apply Z.ltb_lt; simpl; lia).
    reflexivity.
Qed.

Lemma packetData_cons (p : Packet) : packetData p = packet_id p :: packet_body p.
Proof. destruct p; reflexivity. Qed.

Lemma ReadPacketRaw_wire (p : Packet) (rest : list Z) :
  Z.of_nat (length (packetData p)) <= 2097151 ->
  ReadPacketRaw (packet_wire p ++ rest) = Ok (packet_id p, packet_body p, rest).
Proof.
  intros Hmax. set (L := Z.of_nat (length (packetData p))).
  destruct (write_read_nonneg 4 64 L 0 0) as (bs & Hw & _ & Hr); try (simpl; lia).
  unfold packet_wire, write_chunk. fold L. unfold WriteVarInt. rewrite Hw. simpl opt_bytes.
  rewrite <- app_assoc. unfold ReadPacketRaw, ReadVarInt. rewrite Hr.
  replace (0 + L * 2 ^ 0) with L by (simpl; lia).
  assert (Hpos : 0 < L) by (unfold L; rewrite packetData_cons; simpl; lia).
  replace ((L <=? 0) || (L >? 2097151)) with false
    by (symmetry; apply orb_false_iff; split; [apply Z.leb_gt | rewrite Z.gtb_ltb; apply Z.ltb_ge]; lia).
  unfold read_full. unfold L. rewrite Nat2Z.id.
  replace (length (packetData p ++ rest) <? length (packetData p))%nat with false
    by (symmetry; apply Nat.ltb_ge; rewrite length_app; lia).
  rewrite take_app_length, drop_app_length.
  rewrite packetData_cons. destruct p; reflexivity.
Qed.

Lemma encoded_packet_readLoop (rnd : Draw) (fr : Frame) (pkt : Packet) (rest : list Z) :
  frame_ok fr -> length (Data fr) <> 10%nat -> encode_for_send rnd fr = Ok pkt ->
  readLoop_step (packet_wire pkt ++ rest) = LoopFrame fr rest.
Proof.
  intros Hok H10 Henc.
  destruct (send_roundtrip rnd fr Hok H10) as (pkt' & He & Hd).
  rewrite Henc in He. injection He as <-.
  pose proof Hok as (_ & _ & _ & _ & Hlen & _).
  destruct (Nat.le_gt_cases (length (Data fr)) 9) as [Hs | Hl].
  - rewrite encode_for_send_small in Henc by lia.
    destruct (EncodeFrame rnd fr) as [m | e]; [| discriminate].
    injection Henc as <-.
    unfold readLoop_step. rewrite ReadPacketRaw_wire by (rewrite packetData_cons; simpl; lia).
    replace (packet_id (PMove m) =? PacketTypePlayerMove) with true by reflexivity.
    rewrite PlayerMove_Decode_body, DecodeFrame_mod. simpl in Hd. rewrite Hd. reflexivity.
  - rewrite encode_for_send_large in Henc by lia. injection Henc as <-.
    unfold readLoop_step.
    rewrite ReadPacketRaw_wire
      by (change (length (packetData (PCustom (mkCustomPayload brand_channel (payload_stream fr)))))
            with (17 + length (payload_stream fr))%nat;
          rewrite length_payload_stream; lia).
    replace (packet_id (PCustom (mkCustomPayload brand_channel (payload_stream fr)))
               =? PacketTypePlayerMove) with false by reflexivity.
    replace (packet_id (PCustom (mkCustomPayload brand_channel (payload_stream fr)))
               =? PacketTypeCustomPayload) with true by reflexivity.
    rewrite CustomPayload_Decode_body by (simpl; lia). simpl in Hd |- *. rewrite Hd. reflexivity.
Qed.

End WireRoundTrip.


Module WireClaims.
Import VarInt Envelope Stego SendLock Wire StegoSpec WireRoundTrip.

(** X9: The [PlayerMovePacket] codec ([Encode], then [Decode] on
    [bytes.NewReader]): decoding the 33 bytes [Encode] writes gives back the
    packet, each coordinate reduced to its 64-bit and each angle to its
    32-bit pattern, whatever bytes follow; an input shorter than 33 bytes is
    rejected with [io.EOF] or [io.ErrUnexpectedEOF]. *)
Theorem PlayerMove_Encode_Decode (m : PlayerMovePacket) (rest r : list Z) :
  PlayerMove_Decode (packet_body (PMove m) ++ rest) =
    Ok (mkPlayerMove (pm_X m mod 2 ^ 64) (pm_Y m mod 2 ^ 64) (pm_Z m mod 2 ^ 64)
          (pm_Yaw m mod 2 ^ 32) (pm_Pitch m mod 2 ^ 32) (pm_Flags m)) /\
  ((length r < 33)%nat ->
   exists e, PlayerMove_Decode r = Err e /\ (e = ErrEOF \/ e = ErrUnexpectedEOF)).
Proof. split; [apply PlayerMove_Decode_app | apply PlayerMove_Decode_short]. Qed.

(** X10: The [CustomPayloadPacket] codec: for a channel of at most 32767
    bytes, [Decode] on the bytes [Encode] writes (VarInt length, channel,
    data) returns the same channel and data. *)
Theorem CustomPayload_Encode_Decode (c : CustomPayloadPacket) :
  Z.of_nat (length (cp_Channel c)) <= 32767 ->
  CustomPayload_Decode (packet_body (PCustom c)) = Ok c.
Proof.
  intros H. rewrite CustomPayload_Decode_body by lia.
  replace (Z.of_nat (length (cp_Channel c)) <=? 32767) with true
    by (symmetry; apply Z.leb_le; exact H).
  reflexivity.
Qed.

Lemma CustomPayload_Encode_Decode_witness :
  let c := mkCustomPayload brand_channel [1; 2; 3] in
  Z.of_nat (length (cp_Channel c)) <= 32767 /\
  CustomPayload_Decode (packet_body (PCustom c)) = Ok c.
Proof.
  split; [apply Z.leb_le; reflexivity |].
  apply CustomPayload_Encode_Decode. apply Z.leb_le; reflexivity.
Defined.

(** X11: [WritePacket] then [ReadPacketRaw]: when the packet's id and body
    take at most 2,097,151 bytes, reading the bytes [WritePacket] writes
    returns the packet id and the encoded body and leaves whatever follows
    on the connection unread. *)
Theorem WritePacket_ReadPacketRaw (p : Packet) (rest : list Z) :
  Z.of_nat (length (packetData p)) <= 2097151 ->
  ReadPacketRaw (packet_wire p ++ rest) = Ok (packet_id p, packet_body p, rest).
Proof. apply ReadPacketRaw_wire. Qed.

Lemma WritePacket_ReadPacketRaw_witness :
  let p := PCustom (mkCustomPayload brand_channel [1; 2; 3]) in
  Z.of_nat (length (packetData p)) <= 2097151 /\
  ReadPacketRaw (packet_wire p ++ [7; 8]) = Ok (packet_id p, packet_body p, [7; 8]).
Proof.
  split; [apply Z.leb_le; reflexivity |].
  apply WritePacket_ReadPacketRaw. apply Z.leb_le; reflexivity.
Defined.

End WireClaims.




Module SizeClaims.
Import VarInt VarIntExt Stego SendLock FrameOps PacketSize BitFacts VarIntFacts VarIntExtFacts StegoRoundTrip.

(** X18: The [Size] methods agree with the encoders: [PlayerMovePacket.Size]
    is the length of its encoding, [CustomPayloadPacket.Size] that of its
    encoding (VarInt length, channel, data), and [Frame.Size] that of the
    header plus data the encoder embeds. *)
Theorem Size_matches_encoding (m : PlayerMovePacket) (c : CustomPayloadPacket) (f : Frame) :
  Z.of_nat (length (cp_Channel c)) < 2 ^ 31 ->
  PlayerMove_Size m = Z.of_nat (length (packet_body (PMove m))) /\
  CustomPayload_Size c = Some (Z.of_nat (length (packet_body (PCustom c)))) /\
  Size f = Z.of_nat (length (payload_stream f)).
Proof.
  intros H31. split; [| split].
  - reflexivity.
  - set (L := Z.of_nat (length (cp_Channel c))).
    destruct (write_read_nonneg 4 64 L 0 0) as (bs & Hw & _ & _); try (simpl; lia).
    unfold CustomPayload_Size, VarIntSize. fold L. rewrite to_int32_small by lia.
    rewrite size_loop_write_loop, Hw. simpl packet_body. unfold WriteVarInt. fold L. rewrite Hw.
    simpl. f_equal. unfold L. rewrite !length_app. lia.
  - unfold Size, HeaderSize. rewrite length_payload_stream. lia.
Qed.

Lemma Size_matches_encoding_witness :
  let m := mkPlayerMove 1 2 3 4 5 0 in
  let c := mkCustomPayload brand_channel [1; 2; 3] in
  let f := mkFrame 1 0 0 3 [1; 2; 3] in
  Z.of_nat (length (cp_Channel c)) < 2 ^ 31 /\
  PlayerMove_Size m = Z.of_nat (length (packet_body (PMove m))) /\
  CustomPayload_Size c = Some (Z.of_nat (length (packet_body (PCustom c)))) /\
  Size f = Z.of_nat (length (payload_stream f)).
Proof.
  intros m c f.
  assert (H : Z.of_nat (length (cp_Channel c)) < 2 ^ 31) by (apply Z.ltb_lt; reflexivity).
  split; [exact H |]. exact (Size_matches_encoding m c f H).
Defined.

End SizeClaims.



Module MuxExtFacts.
Import Stego Mux MuxExt StegoSpec StegoRoundTrip MuxFacts.

Lemma synAckFrame_ok (id : Z) : 0 <= id < 65536 -> frame_ok (synAckFrame id).
Proof.
  intros Hid. unfold frame_ok, synAckFrame, is_byte. simpl.
  repeat split; try lia. all: try constructor. all: vm_compute; discriminate.
Qed.

Lemma sendFrame_synAck (w : World) (id : Z) :
  mclosed w = false -> conn_fails w = false -> 0 <= id < 65536 ->
  exists pkt w2,
    sendFrame (register_new_stream w id) (synAckFrame id) = (Ok tt, w2) /\
    heap w2 = <[next_addr w := set_state (newStream id) StreamStateOpen]> (heap w) /\
    streams w2 = <[id := next_addr w]> (streams w) /\
    mclosed w2 = false /\
    wire w2 = wire w ++ [pkt] /\ decode_received pkt = Ok (synAckFrame id).
Proof.
  intros Hc Hf Hid.
  destruct (send_roundtrip (rng w (draws w)) (synAckFrame id)) as (pkt & He & Hd);
    [apply synAckFrame_ok; exact Hid | simpl; lia |].
  unfold sendFrame. cbn [mclosed conn_fails rng draws register_new_stream]. rewrite Hc.
  rewrite He, Hf. eexists pkt, _. split; [reflexivity |]. simpl.
  repeat split; try reflexivity. exact Hd.
Qed.

(** [Close_holding_streamsMu] either hangs or leaves the world as it is. *)
Lemma Close_holding_same (w w' : World) (a : nat) :
  Close_holding_streamsMu w a = Some w' -> w' = w.
Proof.
  unfold Close_holding_streamsMu. destruct (heap w !! a) as [s |]; [| congruence].
  destruct (st_closeOnce s); congruence.
Qed.

Lemma close_all_spec (w : World) (l : list (Z * nat)) :
  close_all w l = if forallb (returns w) l then Some w else None.
Proof.
  induction l as [| [id a] l IH]; [reflexivity |]. simpl. unfold returns at 1. simpl.
  destruct (Close_holding_streamsMu w a) as [w' |] eqn:E; [| reflexivity].
  apply Close_holding_same in E. subst w'. exact IH.
Qed.

Lemma returns_false (w : World) (x : Z * nat) :
  returns w x = false <-> exists s, heap w !! x.2 = Some s /\ st_closeOnce s = false.
Proof.
  unfold returns, Close_holding_streamsMu. destruct (heap w !! x.2) as [s |].
  - split.
    + destruct (st_closeOnce s) eqn:E; [discriminate |]. eauto.
    + intros (s' & Hs & Hc). injection Hs as <-. rewrite Hc. reflexivity.
  - split; [discriminate | intros (s & Hs & _); discriminate].
Qed.

Lemma forallb_false_ex {A : Type} (f : A -> bool) (l : list A) :
  forallb f l = false -> exists x, In x l /\ f x = false.
Proof.
  induction l as [| x l IH]; simpl; [discriminate |].
  destruct (f x) eqn:E; simpl; intros H.
  - destruct (IH H) as (y & Hy & Hf). eauto.
  - eauto.
Qed.

Lemma MuxClose_open (w : World) (order : list (Z * nat)) (connErr : option go_error) :
  mclosed w = false ->
  MuxClose w order connErr =
    if forallb (returns w) order then Some (connErr, set_streams (set_mclosed w) ∅) else None.
Proof.
  intros Hc. unfold MuxClose. rewrite Hc, close_all_spec.
  replace (forallb (returns (set_mclosed w)) order) with (forallb (returns w) order).
  2:{ induction order as [| x l IH]; [reflexivity |]. simpl. rewrite IH. f_equal.
      unfold returns, Close_holding_streamsMu. simpl.
      destruct (heap w !! x.2) as [s |]; [destruct (st_closeOnce s) |]; reflexivity. }
  destruct (forallb (returns w) order); reflexivity.
Qed.

End MuxExtFacts.

Module MuxExtClaims.
Import Stego Mux MuxExt StegoSpec StegoRoundTrip MuxFacts MuxExtFacts MuxScenarios.

(** X13: [Multiplexer.handleFrame] for a frame whose stream id is not
    registered: a SYN frame (with room in [acceptCh]) creates an Open stream
    at a fresh address, registers it, queues it for [AcceptStream] and
    sends a SYN-ACK for that id; any other frame is dropped and nothing
    changes. *)
Theorem MuxHandleFrame_unknown_id (w : World) (acc : list nat) (frame : Frame) :
  streams w !! StreamID frame = None -> mclosed w = false -> conn_fails w = false ->
  (length acc < acceptChCap)%nat -> 0 <= StreamID frame < 65536 ->
  (exists w' acc', MuxHandleFrame w acc frame w' acc') /\
  forall w' acc', MuxHandleFrame w acc frame w' acc' ->
    if HasFlag frame FlagSYN then
      heap w' = <[next_addr w := set_state (newStream (StreamID frame)) StreamStateOpen]> (heap w) /\
      streams w' = <[StreamID frame := next_addr w]> (streams w) /\
      acc' = acc ++ [next_addr w] /\
      exists pkt, wire w' = wire w ++ [pkt] /\ decode_received pkt = Ok (synAckFrame (StreamID frame))
    else w' = w /\ acc' = acc.
Proof.
  intros Hnone Hc Hf Hacc Hid.
  destruct (sendFrame_synAck w (StreamID frame) Hc Hf Hid)
    as (pkt & w2 & Hs & Hh & Ht & Hc2 & Hw & Hd).
  split.
  - destruct (HasFlag frame FlagSYN) eqn:Hsyn.
    + exists w2, (acc ++ [next_addr w]). apply MHF_new; [exact Hnone | exact Hsyn |].
      apply HNS_accepted; assumption.
    + exists w, acc. apply MHF_unknown; assumption.
  - intros w' acc' H. destruct H as [w' acc' _ Hsyn Hn | _ Hsyn | a w' Ha _];
      [| rewrite Hsyn; split; reflexivity | congruence].
    rewrite Hsyn.
    destruct Hn as [e w3 Hs3 | w3 Hs3 Hl | w3 Hs3 Hc3 | w3 Hs3 Hl];
      rewrite Hs in Hs3; try discriminate.
    + injection Hs3 as <-. split; [exact Hh |]. split; [exact Ht |].
      split; [reflexivity |]. exists pkt. split; assumption.
    + injection Hs3 as <-. congruence.
    + lia.
Qed.

Lemma MuxHandleFrame_unknown_id_witness :
  let w := world_of (open_stream []) in
  let frame := mkFrame 2 0 FlagSYN 0 [] in
  (streams w !! StreamID frame = None /\ mclosed w = false /\ conn_fails w = false /\
   (length (@nil nat) < acceptChCap)%nat /\ 0 <= StreamID frame < 65536) /\
  (exists w' acc', MuxHandleFrame w [] frame w' acc') /\
  forall w' acc', MuxHandleFrame w [] frame w' acc' ->
    if HasFlag frame FlagSYN then
      heap w' = <[next_addr w := set_state (newStream (StreamID frame)) StreamStateOpen]> (heap w) /\
      streams w' = <[StreamID frame := next_addr w]> (streams w) /\
      acc' = [] ++ [next_addr w] /\
      exists pkt, wire w' = wire w ++ [pkt] /\ decode_received pkt = Ok (synAckFrame (StreamID frame))
    else w' = w /\ acc' = [].
Proof.
  intros w frame.
  assert (H1 : streams w !! StreamID frame = None) by reflexivity.
  assert (H2 : mclosed w = false) by reflexivity.
  assert (H3 : conn_fails w = false) by reflexivity.
  assert (H4 : (length (@nil nat) < acceptChCap)%nat) by (unfold acceptChCap; simpl; lia).
  assert (H5 : 0 <= StreamID frame < 65536) by (simpl; lia).
  split; [tauto |]. exact (MuxHandleFrame_unknown_id w [] frame H1 H2 H3 H4 H5).
Defined.

(** X14: [Multiplexer.Close] on an open multiplexer returns only when no
    registered stream still has to run its [closeOnce] body (such a stream's
    [Close] calls [closeStream], which needs the [streamsMu] that [Close]
    holds); when it returns, it returns [connErr] with the table emptied. *)
Theorem MuxClose_outcome (w : World) (order : list (Z * nat)) (connErr : option go_error) :
  mclosed w = false -> order ≡ₚ map_to_list (streams w) ->
  (MuxClose w order connErr = None <->
     exists id a s, streams w !! id = Some a /\ heap w !! a = Some s /\ st_closeOnce s = false) /\
  forall r, MuxClose w order connErr = Some r -> r = (connErr, set_streams (set_mclosed w) ∅).
Proof.
  intros Hc Hperm. rewrite MuxClose_open by exact Hc. split.
  - destruct (forallb (returns w) order) eqn:E; split; intros H; try discriminate; try reflexivity.
    + destruct H as (id & a & s & Hid & Hs & Ho).
      assert (Hin : (id, a) ∈ order) by (rewrite Hperm; apply elem_of_map_to_list; exact Hid).
      apply forallb_forall with (x := (id, a)) in E; [| apply list_elem_of_In; exact Hin].
      assert (returns w (id, a) = false) by (apply returns_false; eauto). congruence.
    + apply forallb_false_ex in E. destruct E as ((id, a) & Hin & Hr).
      apply list_elem_of_In in Hin. rewrite Hperm in Hin. apply elem_of_map_to_list in Hin.
      apply returns_false in Hr. destruct Hr as (s & Hs & Ho). exists id, a, s. auto.
  - intros r. destruct (forallb (returns w) order); [congruence | discriminate].
Qed.

Lemma MuxClose_outcome_witness :
  let w := world_of (open_stream []) in
  (mclosed w = false /\ [(1, 0%nat)] ≡ₚ map_to_list (streams w)) /\
  (MuxClose w [(1, 0%nat)] None = None <->
     exists id a s, streams w !! id = Some a /\ heap w !! a = Some s /\ st_closeOnce s = false) /\
  forall r, MuxClose w [(1, 0%nat)] None = Some r -> r = (None, set_streams (set_mclosed w) ∅).
Proof.
  intros w.
  assert (H1 : mclosed w = false) by reflexivity.
  assert (H2 : [(1, 0%nat)] ≡ₚ map_to_list (streams w))
    by (unfold w, world_of; simpl; rewrite map_to_list_singleton; reflexivity).
  split; [tauto |]. exact (MuxClose_outcome w [(1, 0%nat)] None H1 H2).
Defined.

(** X15: After [Multiplexer.Close] returns, the multiplexer is closed: a second
    [Close] returns nil and changes nothing, [sendFrame] and [OpenStream]
    fail with [io.ErrClosedPipe]; the first [Close] returned [connErr],
    emptied the stream table and left the streams themselves untouched. *)
Theorem MuxClose_then_closed (w : World) (order : list (Z * nat)) (connErr e : option go_error)
    (w' : World) :
  MuxClose w order connErr = Some (e, w') ->
  mclosed w' = true /\
  (forall order' connErr', MuxClose w' order' connErr' = Some (None, w')) /\
  (forall fr, sendFrame w' fr = (Err ErrClosedPipe, w')) /\
  (forall o, OpenStream w' o = (Err ErrClosedPipe, w')) /\
  (mclosed w = false -> e = connErr /\ StreamCount w' = 0%nat /\ heap w' = heap w).
Proof.
  intros H. destruct (mclosed w) eqn:Hc.
  - unfold MuxClose in H. rewrite Hc in H. injection H as <- <-.
    unfold MuxClose, sendFrame, OpenStream. rewrite Hc.
    repeat split; try reflexivity; discriminate.
  - rewrite MuxClose_open in H by exact Hc.
    destruct (forallb (returns w) order); [| discriminate]. injection H as <- <-.
    unfold MuxClose, sendFrame, OpenStream. simpl.
    repeat split; reflexivity.
Qed.

Lemma MuxClose_then_closed_witness :
  let w := NewMultiplexer no_draws in
  let w' := set_streams (set_mclosed w) ∅ in
  MuxClose w [] None = Some (None, w') /\
  mclosed w' = true /\
  (forall order' connErr', MuxClose w' order' connErr' = Some (None, w')) /\
  (forall fr, sendFrame w' fr = (Err ErrClosedPipe, w')) /\
  (forall o, OpenStream w' o = (Err ErrClosedPipe, w')) /\
  (mclosed w = false -> None = @None go_error /\ StreamCount w' = 0%nat /\ heap w' = heap w).
Proof.
  intros w w'.
  assert (H : MuxClose w [] None = Some (None, w')) by reflexivity.
  split; [exact H |]. exact (MuxClose_then_closed w [] None None w' H).
Defined.

End MuxExtClaims.


Module WriteFacts.
Import Stego Mux MuxExt SendLock StegoSpec StegoRoundTrip MuxFacts Selector SelectorFacts Wire WireRoundTrip.

Lemma chunkMax_Z : Z.of_nat chunkMax = 32760.
Proof. reflexivity. Qed.

Lemma to_uint16_add (x y : Z) : to_uint16 (to_uint16 x + y) = to_uint16 (x + y).
Proof.
  unfold to_uint16. change 65535 with (Z.ones 16). rewrite !Z.land_ones by lia.
  apply Z.add_mod_idemp_l. lia.
Qed.

Lemma to_uint16_range (x : Z) : 0 <= to_uint16 x < 65536.
Proof.
  unfold to_uint16. change 65535 with (Z.ones 16). rewrite Z.land_ones by lia.
  apply Z.mod_pos_bound. lia.
Qed.

Lemma set_sequence_twice (s : Stream) (x y : Z) :
  set_sequence (set_sequence s x) y = set_sequence s y.
Proof. destruct s; reflexivity. Qed.

Lemma set_sequence_same (s : Stream) : set_sequence s (st_sequence s) = s.
Proof. destruct s; reflexivity. Qed.

(** The chunk size of [Stream.Write]: the selector's maximum payload for
    the remaining size, capped at the remaining size. *)
Lemma chunk_size (rem : nat) :
  (if (rem <? Z.to_nat (GetMaxPayload (SelectPacketType (Z.of_nat rem))))%nat then rem
   else Z.to_nat (GetMaxPayload (SelectPacketType (Z.of_nat rem)))) = Nat.min rem chunkMax.
Proof.
  unfold SelectPacketType, MaxDataPerPlayerMove.
  destruct (Z.gtb_spec (Z.of_nat rem) 10) as [Hg | Hg].
  - change (Z.to_nat (GetMaxPayload PacketTypeCustomPayload)) with chunkMax.
    pose proof chunkMax_Z. destruct (Nat.ltb_spec rem chunkMax); lia.
  - change (GetMaxPayload PacketTypePlayerMove) with 10. change (Z.to_nat 10) with 10%nat.
    pose proof chunkMax_Z. destruct (Nat.ltb_spec rem 10); lia.
Qed.

Lemma encode_for_send_total (rnd : Draw) (fr : Frame) :
  exists pkt, encode_for_send rnd fr = Ok pkt.
Proof.
  destruct (Nat.le_gt_cases (length (Data fr)) 10) as [Hs | Hl].
  - destruct (EncodeFrame_ok rnd fr Hs) as [p Hp].
    rewrite encode_for_send_small, Hp by exact Hs. eauto.
  - rewrite encode_for_send_large by exact Hl. eauto.
Qed.

Lemma write_loop_step (fuel : nat) (w : World) (a : nat) (p : list Z) (written : nat)
    (s : Stream) (pkt : Packet) :
  (written < length p)%nat -> heap w !! a = Some s -> mclosed w = false -> conn_fails w = false ->
  encode_for_send (rng w (draws w))
    (mkFrame (st_id s) (st_sequence s) 0
       (to_uint16 (Z.of_nat (Nat.min (length p - written) chunkMax)))
       (take (Nat.min (length p - written) chunkMax) (drop written p))) = Ok pkt ->
  write_loop (S fuel) w a p written =
    write_loop fuel
      (mkWorld (<[a := set_sequence s (to_uint16 (st_sequence s + 1))]> (heap w))
         (next_addr w) (streams w) (nextStreamID w) (mclosed w) (conn_fails w) (rng w)
         (match pkt with PMove _ => S (draws w) | PCustom _ => draws w end)
         (wire w ++ [pkt]))
      a p (written + Nat.min (length p - written) chunkMax).
Proof.
  intros Hlt Hs Hc Hf He. pose proof chunkMax_Z. cbn [write_loop].
  rewrite (proj2 (Nat.ltb_lt _ _) Hlt), Hs. rewrite chunk_size.
  unfold slice. replace (written + Nat.min (length p - written) chunkMax - written)%nat
    with (Nat.min (length p - written) chunkMax) by lia.
  rewrite length_take, length_drop.
  replace (Nat.min (Nat.min (length p - written) chunkMax) (length p - written))
    with (Nat.min (length p - written) chunkMax) by lia.
  unfold update_stream. rewrite Hs. unfold sendFrame. cbn [mclosed conn_fails rng draws set_heap].
  rewrite Hc, He, Hf. reflexivity.
Qed.

Lemma div_one (x m : Z) : 0 < m -> m <= x < 2 * m -> x / m = 1.
Proof. intros Hm Hx. symmetry. apply (Z.div_unique x m 1 (x - m)); [left | ]; lia. Qed.

Lemma write_loop_healthy (a : nat) (p : list Z) (fuel : nat) :
  forall (w : World) (s : Stream) (written : nat),
  heap w !! a = Some s -> mclosed w = false -> conn_fails w = false ->
  0 <= st_sequence s < 65536 -> (written <= length p)%nat -> (length p - written <= fuel)%nat ->
  exists frames pkts d,
    write_loop fuel w a p written =
      ((length p, None),
       mkWorld (<[a := set_sequence s (to_uint16 (st_sequence s + Z.of_nat (length frames)))]> (heap w))
         (next_addr w) (streams w) (nextStreamID w) (mclosed w) (conn_fails w) (rng w) d
         (wire w ++ pkts)) /\
    Forall2 (fun fr pkt => exists rnd, encode_for_send rnd fr = Ok pkt) frames pkts /\
    concat (map Data frames) = drop written p /\
    Z.of_nat (length frames) = (Z.of_nat (length p - written) + 32759) / 32760 /\
    forall i fr, frames !! i = Some fr ->
      StreamID fr = st_id s /\ Sequence fr = to_uint16 (st_sequence s + Z.of_nat i) /\
      Flags fr = 0 /\ Length fr = Z.of_nat (length (Data fr)) /\
      Z.of_nat (length (Data fr)) = Z.min 32760 (Z.of_nat (length p - written) - 32760 * Z.of_nat i).
Proof.
  assert (Hdone : forall w s written,
    heap w !! a = Some s -> 0 <= st_sequence s < 65536 -> written = length p ->
    exists frames pkts d,
    ((written, @None go_error), w) =
      ((length p, None),
       mkWorld (<[a := set_sequence s (to_uint16 (st_sequence s + Z.of_nat (length frames)))]> (heap w))
         (next_addr w) (streams w) (nextStreamID w) (mclosed w) (conn_fails w) (rng w) d
         (wire w ++ pkts)) /\
    Forall2 (fun fr pkt => exists rnd, encode_for_send rnd fr = Ok pkt) frames pkts /\
    concat (map Data frames) = drop written p /\
    Z.of_nat (length frames) = (Z.of_nat (length p - written) + 32759) / 32760 /\
    forall i fr, frames !! i = Some fr ->
      StreamID fr = st_id s /\ Sequence fr = to_uint16 (st_sequence s + Z.of_nat i) /\
      Flags fr = 0 /\ Length fr = Z.of_nat (length (Data fr)) /\
      Z.of_nat (length (Data fr)) = Z.min 32760 (Z.of_nat (length p - written) - 32760 * Z.of_nat i)).
  { intros w s written Hs Hseq ->. exists [], [], (draws w). split; [| split; [constructor |]].
    - simpl length. rewrite Z.add_0_r, to_uint16_small by exact Hseq.
      rewrite set_sequence_same, insert_id by exact Hs. rewrite app_nil_r.
      destruct w; reflexivity.
    - rewrite drop_all, Nat.sub_diag. split; [reflexivity |]. split; [reflexivity |].
      intros i fr H. rewrite lookup_nil in H. discriminate. }
  pose proof chunkMax_Z as Hcm.
  induction fuel as [| fuel IH]; intros w s written Hs Hc Hf Hseq Hle Hfuel.
  - apply Hdone; [exact Hs | exact Hseq | lia].
  - destruct (Nat.ltb_spec written (length p)) as [Hlt | Hge].
    2:{ cbn [write_loop]. rewrite (proj2 (Nat.ltb_ge _ _) Hge). apply Hdone; auto; lia. }
    set (c := Nat.min (length p - written) chunkMax).
    set (frame := mkFrame (st_id s) (st_sequence s) 0 (to_uint16 (Z.of_nat c))
                    (take c (drop written p))).
    destruct (encode_for_send_total (rng w (draws w)) frame) as [pkt Hpkt].
    rewrite (write_loop_step fuel w a p written s pkt Hlt Hs Hc Hf Hpkt). fold c.
    set (s1 := set_sequence s (to_uint16 (st_sequence s + 1))).
    set (w2 := mkWorld (<[a := s1]> (heap w)) (next_addr w) (streams w) (nextStreamID w)
                 (mclosed w) (conn_fails w) (rng w)
                 (match pkt with PMove _ => S (draws w) | PCustom _ => draws w end)
                 (wire w ++ [pkt])).
    destruct (IH w2 s1 (written + c)%nat) as (frames & pkts & d & Hrun & Henc & Hcat & Hcnt & Hfr).
    + apply lookup_insert_eq.
    + exact Hc.
    + exact Hf.
    + apply to_uint16_range.
    + lia.
    + lia.
    + exists (frame :: frames), (pkt :: pkts), d.
      assert (HR : Z.of_nat (length p - (written + c)) = Z.of_nat (length p - written) - Z.of_nat c)
        by lia.
      split; [| split; [| split; [| split]]].
      * rewrite Hrun. unfold w2. cbn [heap next_addr streams nextStreamID mclosed conn_fails rng wire].
        rewrite insert_insert_eq. unfold s1. rewrite set_sequence_twice. simpl st_sequence.
        rewrite to_uint16_add, <- app_assoc. simpl length. do 5 f_equal. lia.
      * constructor; [exists (rng w (draws w)); exact Hpkt | exact Henc].
      * simpl. rewrite Hcat. rewrite <- drop_drop. apply take_drop.
      * simpl length. rewrite HR in Hcnt.
        destruct (Nat.le_gt_cases (length p - written) chunkMax) as [Hsm | Hbg].
        -- replace c with (length p - written)%nat in Hcnt by lia.
           rewrite Z.sub_diag in Hcnt. simpl in Hcnt. rewrite Nat2Z.inj_succ, Hcnt.
           symmetry. apply div_one; lia.
        -- replace (Z.of_nat c) with 32760 in Hcnt by lia.
           replace (Z.of_nat (length p - written) + 32759)
             with ((Z.of_nat (length p - written) - 32760 + 32759) + 1 * 32760) by lia.
           rewrite Z.div_add by lia. lia.
      * intros [| i] fr Hi.
        -- simpl in Hi. injection Hi as <-. simpl.
           rewrite Z.add_0_r, to_uint16_small by exact Hseq.
           rewrite length_take, length_drop.
           replace (Nat.min c (length p - written)) with c by lia.
           rewrite to_uint16_small by lia. repeat split; lia.
        -- simpl in Hi. destruct (Hfr i fr Hi) as (H1 & H2 & H3 & H4 & H5).
           unfold s1 in H1, H2. simpl in H1, H2. rewrite to_uint16_add in H2.
           split; [exact H1 |]. split; [rewrite H2; f_equal; lia |].
           split; [exact H3 |]. split; [exact H4 |].
           rewrite H5, HR.
           destruct (Nat.le_gt_cases (length p - written) chunkMax) as [Hsm | Hbg].
           ++ exfalso. apply lookup_lt_Some in Hi.
              rewrite HR in Hcnt.
              replace (Z.of_nat c) with (Z.of_nat (length p - written)) in Hcnt by lia.
              rewrite Z.sub_diag in Hcnt. change ((0 + 32759) / 32760) with 0 in Hcnt. lia.
           ++ replace (Z.of_nat c) with 32760 by lia. lia.
Qed.

End WriteFacts.

Module WriteClaims.
Import Stego Mux MuxExt SendLock StegoSpec StegoRoundTrip MuxFacts MuxScenarios Selector SelectorFacts Wire WireRoundTrip WriteFacts.

Lemma fragments_write (L : Z) :
  0 <= L -> CalculateFragments L (SelectPacketType L) = (L + 32759) / 32760.
Proof.
  intros HL. unfold CalculateFragments, SelectPacketType, MaxDataPerPlayerMove.
  destruct (Z.gtb_spec L 10) as [Hg | Hg].
  - change (GetMaxPayload PacketTypeCustomPayload) with 32760. cbv zeta.
    rewrite (proj1 (ceil_quot L 32760 HL ltac:(lia))). f_equal. lia.
  - change (GetMaxPayload PacketTypePlayerMove) with 10. cbv zeta.
    rewrite (proj1 (ceil_quot L 10 HL ltac:(lia))).
    destruct (Z.eqb_spec L 0) as [-> | Hn]; [reflexivity |].
    rewrite !div_one; lia.
Qed.

Lemma Forall2_upgrade {A B : Type} (P : A -> B -> Prop) (Q : A -> Prop) (R : B -> A -> Prop)
    (l : list A) (k : list B) :
  Forall2 P l k -> Forall Q l -> (forall x y, P x y -> Q x -> R y x) -> Forall2 R k l.
Proof.
  intros H. induction H as [| x y l k Hxy _ IH]; intros HQ HR; [constructor |].
  inversion HQ; subst. constructor; auto.
Qed.

(** X16: [Stream.Write] on a stream that is neither Closing nor Closed, over a
    healthy connection, returns [(len(p), nil)]; it appends exactly
    [CalculateFragments(len(p), SelectPacketType(len(p)))] packets to the
    connection and advances the stream's sequence number by that count
    (mod 2^16), changing nothing else but the random draws. *)
Theorem Write_sends_all (w : World) (a : nat) (s : Stream) (p : list Z) :
  heap w !! a = Some s -> st_state s <> StreamStateClosed -> st_state s <> StreamStateClosing ->
  mclosed w = false -> conn_fails w = false -> 0 <= st_sequence s < 65536 ->
  exists pkts d,
    Write w a p =
      ((length p, None),
       mkWorld
         (<[a := set_sequence s (to_uint16 (st_sequence s +
                   CalculateFragments (Z.of_nat (length p))
                     (SelectPacketType (Z.of_nat (length p)))))]> (heap w))
         (next_addr w) (streams w) (nextStreamID w) (mclosed w) (conn_fails w) (rng w) d
         (wire w ++ pkts)) /\
    Z.of_nat (length pkts) =
      CalculateFragments (Z.of_nat (length p)) (SelectPacketType (Z.of_nat (length p))).
Proof.
  intros Hs Hcl Hcg Hc Hf Hseq. unfold Write. rewrite Hs.
  replace (StreamState_eqb (st_state s) StreamStateClosed
           || StreamState_eqb (st_state s) StreamStateClosing) with false
    by (destruct (st_state s); simpl; congruence).
  destruct (write_loop_healthy a p (length p) w s 0 Hs Hc Hf Hseq ltac:(lia) ltac:(lia))
    as (frames & pkts & d & Hrun & Henc & _ & Hcnt & _).
  rewrite Nat.sub_0_r in Hcnt. rewrite fragments_write by lia. rewrite <- Hcnt.
  exists pkts, d. split; [exact Hrun |].
  apply Forall2_length in Henc. rewrite Henc. reflexivity.
Qed.

Lemma Write_sends_all_witness :
  let s := open_stream [] in
  let w := world_of s in
  let p := [1; 2; 3] in
  (heap w !! 0%nat = Some s /\ st_state s <> StreamStateClosed /\
   st_state s <> StreamStateClosing /\ mclosed w = false /\ conn_fails w = false /\
   0 <= st_sequence s < 65536) /\
  exists pkts d,
    Write w 0 p =
      ((length p, None),
       mkWorld
         (<[0%nat := set_sequence s (to_uint16 (st_sequence s +
                   CalculateFragments (Z.of_nat (length p))
                     (SelectPacketType (Z.of_nat (length p)))))]> (heap w))
         (next_addr w) (streams w) (nextStreamID w) (mclosed w) (conn_fails w) (rng w) d
         (wire w ++ pkts)) /\
    Z.of_nat (length pkts) =
      CalculateFragments (Z.of_nat (length p)) (SelectPacketType (Z.of_nat (length p))).
Proof.
  intros s w p.
  assert (H1 : heap w !! 0%nat = Some s) by reflexivity.
  assert (H2 : st_state s <> StreamStateClosed) by discriminate.
  assert (H3 : st_state s <> StreamStateClosing) by discriminate.
  assert (H4 : mclosed w = false) by reflexivity.
  assert (H5 : conn_fails w = false) by reflexivity.
  assert (H6 : 0 <= st_sequence s < 65536) by (simpl; lia).
  split; [tauto |]. exact (Write_sends_all w 0 s p H1 H2 H3 H4 H5 H6).
Defined.

(** X17: The packets [Stream.Write] sends for byte data whose length is not 10
    mod 32760 are read back by the peer's [readLoop] as frames whose data
    concatenate to the written bytes, each carrying the stream id, no
    flags, and consecutive sequence numbers from the stream's current one. *)
Theorem Write_delivers_frames (w : World) (a : nat) (s : Stream) (p : list Z) :
  heap w !! a = Some s -> st_state s <> StreamStateClosed -> st_state s <> StreamStateClosing ->
  mclosed w = false -> conn_fails w = false -> 0 <= st_sequence s < 65536 ->
  0 <= st_id s < 65536 -> Forall is_byte p -> Z.of_nat (length p) mod 32760 <> 10 ->
  exists pkts frames,
    fst (Write w a p) = (length p, None) /\ wire (snd (Write w a p)) = wire w ++ pkts /\
    Forall2 (fun pkt fr => forall rest, readLoop_step (packet_wire pkt ++ rest) = LoopFrame fr rest)
      pkts frames /\
    concat (map Data frames) = p /\
    forall i fr, frames !! i = Some fr ->
      StreamID fr = st_id s /\ Sequence fr = to_uint16 (st_sequence s + Z.of_nat i) /\ Flags fr = 0.
Proof.
  intros Hs Hcl Hcg Hc Hf Hseq Hid Hp H10. unfold Write. rewrite Hs.
  replace (StreamState_eqb (st_state s) StreamStateClosed
           || StreamState_eqb (st_state s) StreamStateClosing) with false
    by (destruct (st_state s); simpl; congruence).
  destruct (write_loop_healthy a p (length p) w s 0 Hs Hc Hf Hseq ltac:(lia) ltac:(lia))
    as (frames & pkts & d & Hrun & Henc & Hcat & _ & Hfr).
  rewrite drop_0 in Hcat. rewrite Nat.sub_0_r in Hfr.
  exists pkts, frames. rewrite Hrun. split; [reflexivity |]. split; [reflexivity |].
  split; [| split; [exact Hcat | intros i fr Hi; destruct (Hfr i fr Hi) as (? & ? & ? & _); auto]].
  apply (Forall2_upgrade _ (fun fr => frame_ok fr /\ length (Data fr) <> 10%nat) _ _ _ Henc).
  - apply Forall_lookup. intros i fr Hi. destruct (Hfr i fr Hi) as (H1 & H2 & H3 & H4 & H5).
    split.
    + unfold frame_ok, is_byte. rewrite H1, H2, H3. pose proof (to_uint16_range (st_sequence s + Z.of_nat i)).
      repeat split; try lia.
      apply Forall_forall. intros x Hx. apply (proj1 (Forall_forall _ _) Hp). rewrite <- Hcat.
      apply list_elem_of_In. apply in_concat. exists (Data fr).
      split; [| apply list_elem_of_In; exact Hx]. apply in_map.
      apply list_elem_of_In. eapply list_elem_of_lookup_2. exact Hi.
    + intros E. rewrite E in H5.
      assert (Hm : Z.of_nat (length p) mod 32760 = 10).
      { symmetry. apply (Z.mod_unique (Z.of_nat (length p)) 32760 (Z.of_nat i) 10); [left |]; lia. }
      contradiction.
  - intros fr pkt (rnd & He) (Hok & Hn) rest. exact (encoded_packet_readLoop rnd fr pkt rest Hok Hn He).
Qed.

Lemma Write_delivers_frames_witness :
  let s := open_stream [] in
  let w := world_of s in
  let p := [1; 2; 3] in
  (heap w !! 0%nat = Some s /\ st_state s <> StreamStateClosed /\
   st_state s <> StreamStateClosing /\ mclosed w = false /\ conn_fails w = false /\
   0 <= st_sequence s < 65536 /\ 0 <= st_id s < 65536 /\ Forall is_byte p /\
   Z.of_nat (length p) mod 32760 <> 10) /\
  exists pkts frames,
    fst (Write w 0 p) = (length p, None) /\ wire (snd (Write w 0 p)) = wire w ++ pkts /\
    Forall2 (fun pkt fr => forall rest, readLoop_step (packet_wire pkt ++ rest) = LoopFrame fr rest)
      pkts frames /\
    concat (map Data frames) = p /\
    forall i fr, frames !! i = Some fr ->
      StreamID fr = st_id s /\ Sequence fr = to_uint16 (st_sequence s + Z.of_nat i) /\ Flags fr = 0.
Proof.
  intros s w p.
  assert (H1 : heap w !! 0%nat = Some s) by reflexivity.
  assert (H2 : st_state s <> StreamStateClosed) by discriminate.
  assert (H3 : st_state s <> StreamStateClosing) by discriminate.
  assert (H4 : mclosed w = false) by reflexivity.
  assert (H5 : conn_fails w = false) by reflexivity.
  assert (H6 : 0 <= st_sequence s < 65536) by (simpl; lia).
  assert (H7 : 0 <= st_id s < 65536) by (simpl; lia).
  assert (H8 : Forall is_byte p) by (unfold p, is_byte; repeat constructor; lia).
  assert (H9 : Z.of_nat (length p) mod 32760 <> 10) by discriminate.
  split; [tauto |]. exact (Write_delivers_frames w 0 s p H1 H2 H3 H4 H5 H6 H7 H8 H9).
Defined.

(** X12: [Multiplexer.sendFrame] on an open multiplexer with a working
    connection writes exactly one packet, and one iteration of the peer's
    [readLoop] on that packet yields the same well-formed frame (not of 10
    data bytes), leaving what follows unread. *)
Theorem sendFrame_readLoop (w : World) (fr : Frame) :
  mclosed w = false -> conn_fails w = false -> frame_ok fr -> length (Data fr) <> 10%nat ->
  exists pkt,
    fst (sendFrame w fr) = Ok tt /\ wire (snd (sendFrame w fr)) = wire w ++ [pkt] /\
    forall rest, readLoop_step (packet_wire pkt ++ rest) = LoopFrame fr rest.
Proof.
  intros Hc Hf Hok Hn. destruct (encode_for_send_total (rng w (draws w)) fr) as [pkt He].
  exists pkt. unfold sendFrame. rewrite Hc, He, Hf.
  split; [reflexivity |]. split; [reflexivity |].
  intros rest. exact (encoded_packet_readLoop _ fr pkt rest Hok Hn He).
Qed.

Lemma sendFrame_readLoop_witness :
  let w := world_of (open_stream []) in
  let fr := mkFrame 1 0 0 3 [1; 2; 3] in
  (mclosed w = false /\ conn_fails w = false /\ frame_ok fr /\ length (Data fr) <> 10%nat) /\
  exists pkt,
    fst (sendFrame w fr) = Ok tt /\ wire (snd (sendFrame w fr)) = wire w ++ [pkt] /\
    forall rest, readLoop_step (packet_wire pkt ++ rest) = LoopFrame fr rest.
Proof.
  intros w fr.
  assert (H1 : mclosed w = false) by reflexivity.
  assert (H2 : conn_fails w = false) by reflexivity.
  assert (H3 : frame_ok fr)
    by (unfold frame_ok, is_byte; simpl; repeat split; try lia; repeat constructor; lia).
  assert (H4 : length (Data fr) <> 10%nat) by discriminate.
  split; [tauto |]. exact (sendFrame_readLoop w fr H1 H2 H3 H4).
Defined.

End WriteClaims.

Module OpenStreamClaims.
Import Stego Mux StegoSpec StegoRoundTrip MuxFacts MuxScenarios.



End OpenStreamClaims.
